(** * mbRoleplus identifier converter: a shallow embedding of [main.py]

    The script converts compound identifiers between metabolomics catalogs
    through a shared InChIKey.  It talks to an SQLite file, to the file
    system and to the [logging] module.  The embedding keeps those three
    collaborators explicit:

    - a table is a list of rows in the order in which the engine returns
      them; every row carries the three text columns the docstring of
      [convert] names (ID, InChIKey and the source catalog), the third one
      under a configurable column name;
    - the five SQL statements of the script are the five constructors of
      [Query]; [sql_text] rebuilds the text the script formats and
      [run_query] gives the rows the statement selects, read as SQLite
      reads the pasted text: a table or column name matches without regard
      to case, and a text in double quotes is a column of the table when it
      names one and a string otherwise.  Tables have no index, columns
      are declared as text and cells are never NULL.  A text with an
      unpaired double quote or a NUL character, or a row-id alias, is not
      read: the statement is given an [OperationalError], and no theorem
      below speaks of the rows such a statement selects.  The names of
      tables and columns are pasted bare: the statements are read as the
      script means them for names that need no quoting ([plain_name]);
    - [convert] iterates over a Python set, in an order the language leaves
      open: [convert_iter] takes the order as a list and [convert] runs it
      on the elements of the set;
    - everything the script asks the operating system is a field of [Env];
      the environment does not change during a run;
    - Python exceptions are the [Err] results of a small error monad that
      also records, in order, every observable call the script makes
      ([Event]): file-system probes, connections, statements and log
      records. *)

From stdpp Require Import base strings gmap list pretty.
From Stdlib Require Import Ascii ZArith.

Set Warnings "-clear-no-such-hyp".

(** ** Exceptions and results *)

Inductive exn : Type :=
  | IndexError
  | ZeroDivisionError
  | TypeError
  | OperationalError
  | DatabaseError
  | OSError
  | SystemExit (code : Z).

Inductive result (A : Type) : Type :=
  | Ok (a : A)
  | Err (e : exn).
Arguments Ok {A} a.
Arguments Err {A} e.

Inductive Level : Type := DEBUG | INFO | WARNING | ERROR | CRITICAL.

(** ** The backing relation *)

(** One row of the conversion table: "each row contains inchikey, ID and
    database" (docstring of [convert]). *)
Record Row : Type := {
  row_id : string;
  row_inchikey : string;
  row_source : string
}.

(** A table: the name under which the source column was declared (the
    script's [--field], [database] by default) and the rows in the order in
    which the engine returns them. *)
Record Table : Type := {
  tag_column : string;
  rows : list Row
}.

(** What an open connection sees: the tables of the file by name, or nothing
    when the file is not a database (every statement then raises
    [DatabaseError]). *)
Definition Connection : Type := option (gmap string Table).

Definition columns (t : Table) : list string :=
  ["id"; "inchikey"; tag_column t].

(** The cell of a row under a column name; [None] for a name that is not a
    column of the table. *)
Definition column (t : Table) (name : string) : option (Row → string) :=
  if decide (name = "id") then Some row_id
  else if decide (name = "inchikey") then Some row_inchikey
  else if decide (name = tag_column t) then Some row_source
  else None.

(** *** Names as SQLite resolves them *)

(** SQLite compares names without regard to the case of ASCII letters. *)
Definition lower (c : Ascii.ascii) : Ascii.ascii :=
  let n := Ascii.nat_of_ascii c in
  if (65 <=? n)%nat && (n <=? 90)%nat then Ascii.ascii_of_nat (n + 32) else c.

Fixpoint casefold (s : string) : string :=
  match s with
  | EmptyString => EmptyString
  | String c s' => String (lower c) (casefold s')
  end.

(** The column a name in a statement refers to: the column declared under
    that name, else the one declared under it up to case. *)
Definition sql_column (t : Table) (name : string) : option (Row → string) :=
  match column t name with
  | Some cell => Some cell
  | None =>
      column {| tag_column := casefold (tag_column t); rows := rows t |}
        (casefold name)
  end.

(** The table a name in a statement refers to, likewise. *)
Definition sql_table (db : gmap string Table) (name : string) : option Table :=
  match db !! name with
  | Some t => Some t
  | None =>
      snd <$> List.find (λ entry, String.eqb (casefold entry.1) (casefold name))
                (map_to_list db)
  end.

(** The names every rowid table answers to besides its declared columns. *)
Definition rowid_alias (name : string) : bool :=
  bool_decide (casefold name ∈ ["rowid"; "oid"; "_rowid_"]).

(** The name a text denotes once pasted between double quotes: a doubled
    quote inside stands for one quote; [None] when a quote inside closes the
    token early, or when the text holds a NUL character (the driver refuses
    such a statement). *)
Fixpoint dq_token (text : string) : option string :=
  match text with
  | EmptyString => Some EmptyString
  | String c rest =>
      if Ascii.eqb c "000"%char then None
      else if Ascii.eqb c "034"%char then
        match rest with
        | String c' rest' =>
            if Ascii.eqb c' "034"%char then String c <$> dq_token rest' else None
        | EmptyString => None
        end
      else String c <$> dq_token rest
  end.

(** What a double-quoted text stands for in a [where] clause over a table:
    the cell under the column it names, or else the string itself. *)
Inductive Operand : Type :=
  | Cell (cell : Row → string)
  | Literal (s : string).

Definition operand (t : Table) (text : string) : option Operand :=
  match dq_token text with
  | None => None
  | Some name =>
      match sql_column t name with
      | Some cell => Some (Cell cell)
      | None => if rowid_alias name then None else Some (Literal name)
      end
  end.

Definition value (o : Operand) (r : Row) : string :=
  match o with
  | Cell cell => cell r
  | Literal s => s
  end.

(** A text that is read as the string it spells. *)
Definition literal (t : Table) (text : string) : Prop :=
  operand t text = Some (Literal text).

(** ** The SQL statements of the script *)

Inductive Query : Type :=
  | SQL_TABLE_EXISTS
  | SQLITE_COLUMNS_OF_TABLE (table : string)
  | SQL_SELECT_SOURCES (field table : string)
  | SQL_GET_INCHIKEY (table metabolite : string)
  | SQL_GET_ID_WITH_INCHIKEY (table inchikey field id : string).

Definition dquote : string := String "034"%char EmptyString.

(** The text [str.format] produces from the module-level templates. *)
Definition sql_text (q : Query) : string :=
  match q with
  | SQL_TABLE_EXISTS => "SELECT name FROM sqlite_master WHERE type='table';"
  | SQLITE_COLUMNS_OF_TABLE table => "PRAGMA table_info(" +:+ table +:+ ")"
  | SQL_SELECT_SOURCES field table =>
      "SELECT DISTINCT " +:+ field +:+ " FROM " +:+ table +:+ ";"
  | SQL_GET_INCHIKEY table metabolite =>
      "SELECT inchikey from " +:+ table +:+ " where id == "
        +:+ dquote +:+ metabolite +:+ dquote
  | SQL_GET_ID_WITH_INCHIKEY table inchikey field id =>
      "Select id from " +:+ table +:+ " where inchikey == "
        +:+ dquote +:+ inchikey +:+ dquote +:+ " AND " +:+ field +:+ " == "
        +:+ dquote +:+ id +:+ dquote
  end.

(** Hop 1, [where id == "<metabolite>"]: the rows whose ID equals what the
    quoted text stands for (no row for a text that is not read). *)
Definition hop1_rows (t : Table) (metabolite : string) : list Row :=
  match operand t metabolite with
  | Some o => filter (λ r, row_id r = value o r) (rows t)
  | None => []
  end.

Definition select_inchikey (t : Table) (metabolite : string) : list string :=
  row_inchikey <$> hop1_rows t metabolite.

(** Hop 2, [where inchikey == "<inchikey>" AND <field> == "<id>"]: the rows
    whose InChIKey and whose cell under the lookup column equal what the two
    quoted texts stand for. *)
Definition hop2_rows (t : Table) (tag : Row → string) (inchikey id : string)
    : list Row :=
  match operand t inchikey, operand t id with
  | Some k, Some s =>
      filter (λ r, row_inchikey r = value k r ∧ tag r = value s r) (rows t)
  | _, _ => []
  end.

Definition select_id (t : Table) (tag : Row → string) (inchikey id : string)
    : list string :=
  row_id <$> hop2_rows t tag inchikey id.

(** The selected column of every row a statement returns
    ([cursor.execute(..).fetchall()] with the tuples projected as the script
    projects them). A missing table or column is SQLite's
    [OperationalError]; [PRAGMA table_info] of a missing table is empty. *)
Definition run_query (db : gmap string Table) (q : Query) : result (list string) :=
  match q with
  | SQL_TABLE_EXISTS => Ok (elements (dom db))
  | SQLITE_COLUMNS_OF_TABLE table =>
      Ok (from_option columns [] (sql_table db table))
  | SQL_SELECT_SOURCES field table =>
      match sql_table db table with
      | None => Err OperationalError
      | Some t =>
          match sql_column t field with
          | None => Err OperationalError
          | Some tag => Ok (remove_dups (tag <$> rows t))
          end
      end
  | SQL_GET_INCHIKEY table metabolite =>
      match sql_table db table with
      | None => Err OperationalError
      | Some t =>
          match operand t metabolite with
          | None => Err OperationalError
          | Some _ => Ok (select_inchikey t metabolite)
          end
      end
  | SQL_GET_ID_WITH_INCHIKEY table inchikey field id =>
      match sql_table db table with
      | None => Err OperationalError
      | Some t =>
          match sql_column t field with
          | None => Err OperationalError
          | Some tag =>
              match operand t inchikey, operand t id with
              | Some _, Some _ => Ok (select_id t tag inchikey id)
              | _, _ => Err OperationalError
              end
          end
      end
  end.

Definition fetch (conn : Connection) (q : Query) : result (list string) :=
  match conn with
  | Some db => run_query db q
  | None => Err DatabaseError
  end.

(** ** Observable events and the trace monad *)

Inductive Event : Type :=
  | EvPathExists (path : string)
  | EvConnect (path : string)
  | EvExecute (statement : Query)
  | EvLog (logger : string) (level : Level) (msg : string)
  | EvBasicConfig (filename : string) (level : Level)
  | EvOpen (path : string) (mode : string)
  | EvReadlines (path : string)
  | EvPrint (dest : string) (text : string)
  | EvUsage (argument : string) (given : string).

Definition M (A : Type) : Type := (list Event * result A)%type.

Definition ret {A} (a : A) : M A := ([], Ok a).
Definition raise {A} (e : exn) : M A := ([], Err e).
Definition emit (ev : Event) : M unit := ([ev], Ok tt).
Definition lift {A} (r : result A) : M A := ([], r).

Definition bind {A B} (m : M A) (k : A → M B) : M B :=
  match m with
  | (t, Ok a) => let '(t', r) := k a in (t ++ t', r)
  | (t, Err e) => (t, Err e)
  end.

Notation "x <- m ;; k" := (bind m (λ x, k))
  (at level 100, m at next level, right associativity).
Notation "m ;;; k" := (bind m (λ _, k))
  (at level 100, right associativity).

Definition trace {A} (m : M A) : list Event := fst m.
Definition outcome {A} (m : M A) : result A := snd m.

(** [for x in xs: st = body(st, x)], stopping at the first exception. *)
Fixpoint for_each {S A} (body : S → A → M S) (st : S) (xs : list A) : M S :=
  match xs with
  | [] => ret st
  | x :: xs' => st' <- body st x ;; for_each body st' xs'
  end.

(** ** The environment of a run *)

Record Env : Type := {
  (** [os.path.exists] *)
  os_path_exists : string → bool;
  (** [os.path.dirname] *)
  os_path_dirname : string → string;
  (** [sqlite3.Connection(path)]; [None] when the file cannot be opened *)
  sqlite3_Connection : string → option Connection;
  (** whether [open(path, mode)] succeeds, or [gzip.open(path, mode)] when
      the flag is set *)
  open_file : bool → string → string → bool;
  (** [fhand.readlines()] on the file at a path opened that way; [None]
      when reading fails *)
  file_readlines : bool → string → option (list string);
  (** the text of the float [a / b], for [b] not zero *)
  float_str : nat → nat → string
}.

(** ** Effectful primitives *)

Definition exists_ (env : Env) (path : string) : M bool :=
  emit (EvPathExists path) ;;; ret (os_path_exists env path).

Definition connect (env : Env) (path : string) : M Connection :=
  emit (EvConnect path) ;;;
  match sqlite3_Connection env path with
  | Some connection => ret connection
  | None => raise OperationalError
  end.

Definition execute (cursor : Connection) (q : Query) : M (list string) :=
  emit (EvExecute q) ;;; lift (fetch cursor q).

Definition log (logger : string) (level : Level) (msg : string) : M unit :=
  emit (EvLog logger level msg).

Definition open_ (env : Env) (gz : bool) (path mode : string) : M unit :=
  emit (EvOpen path mode) ;;;
  if open_file env gz path mode then ret tt else raise OSError.

Definition readlines (env : Env) (gz : bool) (path : string) : M (list string) :=
  emit (EvReadlines path) ;;;
  match file_readlines env gz path with
  | Some lines => ret lines
  | None => raise OSError
  end.

(** [xs[0]]: the first element, [IndexError] on an empty list. *)
Definition item0 {A} (xs : list A) : M A :=
  match xs with
  | [] => raise IndexError
  | x :: _ => ret x
  end.

(** [a / b] formatted in an f-string. *)
Definition div_str (env : Env) (a b : nat) : M string :=
  if (b =? 0)%nat then raise ZeroDivisionError else ret (float_str env a b).

(** ** Strings to be formatted or used eventually *)

Definition LOGGER_NAME : string := "mbroleplus".
Definition root : string := "root".
Definition newline : string := String "010"%char EmptyString.

Definition _set_logger (name : string) : string := name.

(** ** [_parse_loglevel] *)

Definition _parse_loglevel (loglevel : string) : M Level :=
  if decide (loglevel = "debug") then ret DEBUG
  else if decide (loglevel = "info") then ret INFO
  else if decide (loglevel = "warn") then ret WARNING
  else if decide (loglevel = "error") then ret ERROR
  else if decide (loglevel = "critical") then ret CRITICAL
  else
    emit (EvPrint "stdout" ("Error: invalid loglevel " +:+ loglevel
            +:+ ". Valid values are: debug, info, warn, error, critical"
            +:+ newline)) ;;;
    raise (SystemExit (-1)).

(** ** [_parse_input_file] *)

(** [str.strip(chars)] for a one-character [chars]. *)
Fixpoint lstrip (c : Ascii.ascii) (s : string) : string :=
  match s with
  | String a s' => if Ascii.eqb a c then lstrip c s' else s
  | EmptyString => EmptyString
  end.

Fixpoint rstrip (c : Ascii.ascii) (s : string) : string :=
  match s with
  | EmptyString => EmptyString
  | String a s' =>
      match rstrip c s' with
      | EmptyString => if Ascii.eqb a c then EmptyString else String a EmptyString
      | r => String a r
      end
  end.

Definition strip (c : Ascii.ascii) (s : string) : string := rstrip c (lstrip c s).

(** The set comprehension over the lines read: every line without its
    newline characters, duplicates collapsed. *)
Definition input_set (lines : list string) : gset string :=
  list_to_set (strip "010"%char <$> lines).

(** [gzip.open(file)] reads bytes, and [bytes.strip] of a [str] argument
    raises [TypeError] at the first line. *)
Definition _parse_input_file (env : Env) (file : string) (gz : bool) : M (gset string) :=
  let logger := _set_logger "_parse_input_file" in
  open_ env gz file (if gz then "rb" else "r") ;;;
  log logger INFO ("Parsing file: " +:+ file) ;;;
  lines <- readlines env gz file ;;
  if gz then
    match lines with
    | [] => ret ∅
    | _ :: _ => raise TypeError
    end
  else ret (input_set lines).

(** ** [validation] *)

Definition validation (env : Env)
    (id database table input_file output_file logfile field : string) : M bool :=
  let logger := _set_logger "validation" in
  (* Checking if the database given exists *)
  found <- exists_ env database ;;
  if negb found then
    (log logger CRITICAL (" Not Found: SQLite database " +:+ database
        +:+ ". Pherhaps a typo or incorrect path?") ;;;
     ret false)
  else
  log logger INFO (" Database " +:+ database +:+ " found.") ;;;
  (* Checking if table exist in database *)
  cursor <- connect env database ;;
  tables <- execute cursor SQL_TABLE_EXISTS ;;
  if negb (bool_decide (table ∈ tables)) then
    (log root CRITICAL (" Table " +:+ table +:+ " not found in " +:+ database
        +:+ ". Pherhaps a typo or incorrect path?") ;;;
     ret false)
  else
  (* Checking if the field indicated exists *)
  log logger INFO (" Table " +:+ table +:+ " found") ;;;
  cols <- execute cursor (SQLITE_COLUMNS_OF_TABLE table) ;;
  if negb (bool_decide (field ∈ cols)) then
    (log root CRITICAL (" Field " +:+ field +:+ " not found in table " +:+ table
        +:+ ". Pherhaps a typo?") ;;;
     ret false)
  else
  (* Finally, checking if the desired source exists in the database *)
  sources <- execute cursor (SQL_SELECT_SOURCES field table) ;;
  if negb (bool_decide (id ∈ sources)) then
    (log logger CRITICAL ("Source " +:+ id +:+ " not found in " +:+ table
        +:+ " in column " +:+ field +:+ ". Pherhaps a typo?") ;;;
     ret false)
  else
  log logger INFO (" Source " +:+ id +:+ " found") ;;;
  input_found <- exists_ env input_file ;;
  (if negb input_found then
     log logger CRITICAL ("Input file: " +:+ input_file
        +:+ " not found. Check typos or correct the path")
   else ret tt) ;;;
  log root INFO (" Input file " +:+ input_file +:+ " found") ;;;
  output_found <- exists_ env (os_path_dirname env output_file) ;;
  (if negb output_found then
     log logger CRITICAL ("Output folder: " +:+ input_file
        +:+ " not found. Check typos or correct the path")
   else ret tt) ;;;
  log root INFO (" Output file " +:+ output_file +:+ " can be created") ;;;
  log logger INFO " Validation finished, proceeding with conversion" ;;;
  ret true.

(** ** [convert] *)

(** The two accumulators of the loop: [founded_ids] and [unavailable_ids]. *)
Definition Found : Type := (gmap string string * gset string)%type.

(** One turn of the [for metabolite in input] loop. *)
Definition convert_body (cursor : Connection) (table id field : string)
    (st : Found) (metabolite : string) : M Found :=
  let logger := _set_logger "convert" in
  let '(founded_ids, unavailable_ids) := st in
  let SQL := SQL_GET_INCHIKEY table metabolite in
  log root DEBUG (" Executing " +:+ sql_text SQL) ;;;
  results <- execute cursor SQL ;;
  if (length results =? 0)%nat then
    log logger WARNING (" Metabolite with ID " +:+ metabolite +:+ " not found") ;;;
    ret (founded_ids, {[metabolite]} ∪ unavailable_ids)
  else
    inchikey <- item0 results ;;
    log logger DEBUG (" Found inchikey " +:+ inchikey +:+ " with ID  "
        +:+ metabolite) ;;;
    let SQL := SQL_GET_ID_WITH_INCHIKEY table inchikey field id in
    log logger DEBUG (sql_text SQL) ;;;
    fetched <- execute cursor SQL ;;
    molecules <- item0 fetched ;;
    (if (String.length molecules =? 0)%nat then
       (* TODO: What happens when there no ID in destination *)
       ret tt
     else ret tt) ;;;
    ret (<[metabolite := molecules]> founded_ids, unavailable_ids).

(** [convert] with the order in which the input set is iterated made
    explicit: Python leaves the iteration order of a set unspecified. *)
Definition convert_iter (env : Env) (order : list string)
    (database table id field : string) : M Found :=
  let logger := _set_logger "convert" in
  cursor <- connect env database ;;
  log logger INFO (" Querying " +:+ pretty (length order) +:+ " metabolites") ;;;
  for_each (convert_body cursor table id field) (∅, ∅) order.

Definition convert (env : Env) (input : gset string)
    (database table id field : string) : M Found :=
  convert_iter env (elements input) database table id field.

(** ** [save_compounds] and [main] *)

Definition save_compounds (env : Env) (file : string) (gzipped : bool)
    (compounds : gset string) : M unit :=
  open_ env gzipped file "wt" ;;;
  for_each (λ _ x, emit (EvPrint file (x +:+ newline))) tt (elements compounds).

(** The options [argparse] hands to [main]. *)
Record Args : Type := {
  args_input : string;
  args_output : string;
  args_database : string;
  args_table : string;
  args_field : string;
  args_id : string;
  args_gzipped_input : bool;
  args_gzipped_output : bool;
  args_logfile : string;
  args_loglevel : string;
  args_discarded_file : string
}.

(** [_parse_args], for a command line that gives every option a value: the
    values go through unchanged, except that [argparse] refuses a log level
    outside the [choices] of the option (it reports the usage error and
    leaves with status 2). *)
Definition _parse_args (given : Args) : M Args :=
  if bool_decide (args_loglevel given
                    ∈ ["debug"; "info"; "warn"; "error"; "critical"])
  then ret given
  else
    emit (EvUsage "--loglevel/-ll" (args_loglevel given)) ;;;
    raise (SystemExit 2).

Definition basicConfig (env : Env) (filename : string) (level : Level) : M unit :=
  emit (EvBasicConfig filename level) ;;;
  if open_file env false filename "a" then ret tt else raise OSError.

Definition main (env : Env) (given : Args) : M unit :=
  args <- _parse_args given ;;
  loglevel <- _parse_loglevel (args_loglevel args) ;;
  basicConfig env (args_logfile args) loglevel ;;;
  let logger := _set_logger LOGGER_NAME in
  valid <- validation env (args_id args) (args_database args) (args_table args)
             (args_input args) (args_output args) (args_logfile args)
             (args_field args) ;;
  if negb valid then
    log logger INFO "Input commands not valid. Exiting..." ;;;
    raise (SystemExit 1)
  else
  input_compounds <- _parse_input_file env (args_input args) (args_gzipped_input args) ;;
  res <- convert env input_compounds (args_database args) (args_table args)
           (args_id args) (args_field args) ;;
  let '(converted, unavailable) := res in
  found_ratio <- div_str env (size converted) (size input_compounds) ;;
  log logger INFO (" Found " +:+ pretty (size converted) +:+ " IDs ("
      +:+ found_ratio +:+ "%)") ;;;
  missing_ratio <- div_str env (size unavailable) (size input_compounds) ;;
  log logger INFO (" " +:+ pretty (size unavailable) +:+ " metabolites not found ("
      +:+ missing_ratio +:+ ")") ;;;
  save_compounds env (args_output args) (args_gzipped_output args)
    (list_to_set (snd <$> map_to_list converted)) ;;;
  save_compounds env (args_discarded_file args) false unavailable.

(** The status the interpreter hands to the operating system: 0 when
    [main] returns, the code of [sys.exit], 1 after an uncaught exception. *)
Definition exit_status (r : result unit) : Z :=
  match r with
  | Ok _ => 0
  | Err (SystemExit code) => code `mod` 256
  | Err _ => 1
  end.

(** ** The scenario of the specification *)

Module Scenario.

Definition table : Table := {|
  tag_column := "database";
  rows := [ {| row_id := "C001"; row_inchikey := "ABC123"; row_source := "KEGG" |};
            {| row_id := "HMDB0001"; row_inchikey := "ABC123"; row_source := "HMDB" |};
            {| row_id := "C999"; row_inchikey := "XYZ999"; row_source := "KEGG" |} ]
|}.

Definition db : gmap string Table := {[ "mbroleplus" := table ]}.

Definition env (lines : list string) : Env := {|
  os_path_exists p := true;
  os_path_dirname p := "out";
  sqlite3_Connection p := Some (Some db);
  open_file gz p mode := true;
  file_readlines gz p := Some lines;
  float_str a b := pretty a +:+ "/" +:+ pretty b
|}.

(** The database is there; the input file and the output directory are not. *)
Definition no_files : Env := {|
  os_path_exists p := bool_decide (p = "db");
  os_path_dirname p := "out";
  sqlite3_Connection p := Some (Some db);
  open_file gz p mode := bool_decide (p = "log");
  file_readlines gz p := None;
  float_str a b := pretty a +:+ "/" +:+ pretty b
|}.

(** The command line of the scenario, and the same asking for a source the
    table does not list. *)
Definition args : Args := {|
  args_input := "in.txt";
  args_output := "out/ids.txt";
  args_database := "db";
  args_table := "mbroleplus";
  args_field := "database";
  args_id := "HMDB";
  args_gzipped_input := false;
  args_gzipped_output := false;
  args_logfile := "log";
  args_loglevel := "info";
  args_discarded_file := "discarded.txt"
|}.

Definition args_chebi : Args := {|
  args_input := "in.txt";
  args_output := "out/ids.txt";
  args_database := "db";
  args_table := "mbroleplus";
  args_field := "database";
  args_id := "CHEBI";
  args_gzipped_input := false;
  args_gzipped_output := false;
  args_logfile := "log";
  args_loglevel := "info";
  args_discarded_file := "discarded.txt"
|}.

End Scenario.

(** ** What one identifier resolves to *)

(** The three ways a turn of the loop can end. *)
Inductive Resolution : Type :=
  | Unmatched
  | Matched (molecules : string)
  | Raised (e : exn).

(** The two hops of [convert_body], read off the statements it executes. *)
Definition resolve (cursor : Connection) (table id field metabolite : string)
    : Resolution :=
  match fetch cursor (SQL_GET_INCHIKEY table metabolite) with
  | Err e => Raised e
  | Ok [] => Unmatched
  | Ok (inchikey :: _) =>
      match fetch cursor (SQL_GET_ID_WITH_INCHIKEY table inchikey field id) with
      | Err e => Raised e
      | Ok [] => Raised IndexError
      | Ok (molecules :: _) => Matched molecules
      end
  end.

(** How a resolution lands in the two accumulators. *)
Definition record (metabolite : string) (r : Resolution) (st : Found) : result Found :=
  match r with
  | Unmatched => Ok (st.1, {[metabolite]} ∪ st.2)
  | Matched molecules => Ok (<[metabolite := molecules]> st.1, st.2)
  | Raised e => Err e
  end.

(** The loop on outcomes alone. *)
Fixpoint resolve_all (res : string → Resolution) (st : Found) (xs : list string)
    : result Found :=
  match xs with
  | [] => Ok st
  | x :: xs' =>
      match record x (res x) st with
      | Ok st' => resolve_all res st' xs'
      | Err e => Err e
      end
  end.

(** ** Reading a trace *)



(** The events only [convert] emits. *)
Definition is_resolution (ev : Event) : bool :=
  match ev with
  | EvLog logger _ _ => String.eqb logger "convert"
  | EvExecute (SQL_GET_INCHIKEY _ _) => true
  | EvExecute (SQL_GET_ID_WITH_INCHIKEY _ _ _ _) => true
  | _ => false
  end.

(** ** Further tables *)

(** *** Several rows under the requested source *)

Module Synonyms.

Definition syn_table : Table := {|
  tag_column := "database";
  rows := [ {| row_id := "C001"; row_inchikey := "ABC123"; row_source := "KEGG" |};
            {| row_id := "HMDB0001"; row_inchikey := "ABC123"; row_source := "HMDB" |};
            {| row_id := "HMDB0002"; row_inchikey := "ABC123"; row_source := "HMDB" |} ]
|}.

Definition syn_env : Env := {|
  os_path_exists p := true;
  os_path_dirname p := "out";
  sqlite3_Connection p := Some (Some {[ "mbroleplus" := syn_table ]});
  open_file gz p mode := true;
  file_readlines gz p := Some ["C001" +:+ newline];
  float_str a b := pretty a +:+ "/" +:+ pretty b
|}.

End Synonyms.

(** The match the specification asks for: the set of the distinct IDs of all
    rows with the hop-1 InChIKey under the requested source. *)
Definition full_match (t : Table) (tag : Row → string) (inchikey id : string)
    : gset string :=
  list_to_set (select_id t tag inchikey id).

(** C2 as the specification words it: what is recorded for a matched
    identifier (one string, read as the set holding it) is the full match. *)
Definition records_full_match (env : Env) (input : gset string)
    (database table id field : string) : Prop :=
  ∀ db t tag founded_ids unavailable_ids X y inchikey ks,
    sqlite3_Connection env database = Some (Some db) →
    db !! table = Some t →
    column t field = Some tag →
    outcome (convert env input database table id field)
      = Ok (founded_ids, unavailable_ids) →
    founded_ids !! X = Some y →
    select_inchikey t X = inchikey :: ks →
    full_match t tag inchikey id = {[ y ]}.

(** *** An identifier listed under two InChIKeys, and an empty target ID *)

Module Ambiguous.

Definition amb_table : Table := {|
  tag_column := "database";
  rows := [ {| row_id := "X1"; row_inchikey := "K1"; row_source := "KEGG" |};
            {| row_id := "X1"; row_inchikey := "K2"; row_source := "KEGG" |};
            {| row_id := "H2"; row_inchikey := "K2"; row_source := "HMDB" |};
            {| row_id := "H1"; row_inchikey := "K1"; row_source := "HMDB" |};
            {| row_id := "X5"; row_inchikey := "K5"; row_source := "KEGG" |};
            {| row_id := ""; row_inchikey := "K5"; row_source := "HMDB" |} ]
|}.

Definition amb_db : gmap string Table := {[ "mbroleplus" := amb_table ]}.


End Ambiguous.

(** ** Reading strings and traces further *)

(** A string made of the character [c] alone (the empty string included). *)
Fixpoint only (c : Ascii.ascii) (s : string) : bool :=
  match s with
  | EmptyString => true
  | String a s' => Ascii.eqb a c && only c s'
  end.

(** What a trace printed, and where: the [print] calls in order. *)
Definition prints (tr : list Event) : list (string * string) :=
  omap (λ ev, match ev with EvPrint dest text => Some (dest, text) | _ => None end) tr.

(** The statements a trace executed. *)
Definition statements (tr : list Event) : list Query :=
  omap (λ ev, match ev with EvExecute q => Some q | _ => None end) tr.

(** The records a trace logged at warning level. *)
Definition warnings (tr : list Event) : list string :=
  omap (λ ev, match ev with EvLog _ WARNING msg => Some msg | _ => None end) tr.

Definition is_matched (r : Resolution) : bool :=
  match r with Matched _ => true | _ => false end.

Definition is_unmatched (r : Resolution) : bool :=
  match r with Unmatched => true | _ => false end.

(** ** Further command lines *)

Module Runs.



Definition args_verbose : Args := {|
  args_input := "in.txt";
  args_output := "out/ids.txt";
  args_database := "db";
  args_table := "mbroleplus";
  args_field := "database";
  args_id := "HMDB";
  args_gzipped_input := false;
  args_gzipped_output := false;
  args_logfile := "log";
  args_loglevel := "verbose";
  args_discarded_file := "discarded.txt"
|}.

Definition args_gz : Args := {|
  args_input := "in.txt.gz";
  args_output := "out/ids.txt";
  args_database := "db";
  args_table := "mbroleplus";
  args_field := "database";
  args_id := "HMDB";
  args_gzipped_input := true;
  args_gzipped_output := false;
  args_logfile := "log";
  args_loglevel := "info";
  args_discarded_file := "discarded.txt"
|}.

End Runs.

(** ** Texts outside the reading of the statements *)

(** A text that is read when pasted between double quotes. *)
Definition readable (t : Table) (text : string) : Prop :=
  is_Some (operand t text).

(** A name made of letters, digits and underscores that does not begin with
    a digit: what SQLite takes as one bare name. *)
Definition name_char (c : Ascii.ascii) : bool :=
  let n := Ascii.nat_of_ascii c in
  ((65 <=? n)%nat && (n <=? 90)%nat) || ((97 <=? n)%nat && (n <=? 122)%nat)
  || ((48 <=? n)%nat && (n <=? 57)%nat) || (n =? 95)%nat.

Fixpoint name_chars (s : string) : bool :=
  match s with
  | EmptyString => true
  | String c s' => name_char c && name_chars s'
  end.

Definition bare_name (s : string) : bool :=
  match s with
  | EmptyString => false
  | String c _ =>
      negb ((48 <=? Ascii.nat_of_ascii c)%nat && (Ascii.nat_of_ascii c <=? 57)%nat)
      && name_chars s
  end.

(** The words SQLite does not read as the name of a table or of a column
    when they stand bare in the statements of the script: the keywords of its
    grammar that are never taken as a name, the constants and the row-id
    aliases. *)
Definition reserved_words : list string :=
  [ "add"; "all"; "alter"; "and"; "as"; "autoincrement"; "between"; "case";
    "cast"; "check"; "collate"; "commit"; "constraint"; "create";
    "current_date"; "current_time"; "current_timestamp"; "default";
    "deferrable"; "delete"; "distinct"; "drop"; "else"; "escape"; "except";
    "exists"; "foreign"; "from"; "group"; "having"; "in"; "index"; "insert";
    "intersect"; "into"; "is"; "isnull"; "join"; "limit"; "not"; "nothing";
    "notnull"; "null"; "on"; "or"; "order"; "primary"; "raise"; "references";
    "returning"; "select"; "set"; "table"; "then"; "to"; "transaction";
    "union"; "unique"; "update"; "using"; "values"; "when"; "where";
    "true"; "false"; "rowid"; "oid"; "_rowid_" ].

(** A name the statements of the script read as that name when it is pasted
    bare: [mbroleplus] and [database], the defaults of the script, are such
    names. *)
Definition plain_name (s : string) : bool :=
  bare_name s && negb (bool_decide (casefold s ∈ reserved_words)).

(** Whether a character occurs in a string. *)
Fixpoint has_char (c : Ascii.ascii) (s : string) : bool :=
  match s with
  | EmptyString => false
  | String a s' => Ascii.eqb a c || has_char c s'
  end.

(** * Verification *)

(** ** The trace monad *)

Lemma outcome_bind {A B} (m : M A) (k : A → M B) :
  outcome (bind m k) =
  match outcome m with
  | Ok a => outcome (k a)
  | Err e => Err e
  end.
Proof.
  destruct m as [t [a|e]]; simpl; [|done].
  by destruct (k a).
Qed.

Lemma trace_bind {A B} (m : M A) (k : A → M B) :
  trace (bind m k) =
  match outcome m with
  | Ok a => trace m ++ trace (k a)
  | Err e => trace m
  end.
Proof.
  destruct m as [t [a|e]]; simpl; [|done].
  by destruct (k a).
Qed.

Lemma convert_body_outcome cursor table id field st metabolite :
  outcome (convert_body cursor table id field st metabolite) =
  record metabolite (resolve cursor table id field metabolite) st.
Proof.
  destruct st as [f u]. unfold convert_body, resolve, execute, log, lift, emit.
  destruct (fetch cursor (SQL_GET_INCHIKEY table metabolite)) as [[|k ks]|e];
    simpl; try done.
  destruct (fetch cursor (SQL_GET_ID_WITH_INCHIKEY table k field id))
    as [[|y ys]|e]; simpl; try done.
  by destruct (String.length y =? 0)%nat.
Qed.

Lemma for_each_outcome cursor table id field st xs :
  outcome (for_each (convert_body cursor table id field) st xs) =
  resolve_all (resolve cursor table id field) st xs.
Proof.
  revert st. induction xs as [|x xs IH]; intros st; simpl; [done|].
  rewrite outcome_bind, convert_body_outcome.
  destruct (record x _ st); [apply IH | done].
Qed.

Section Loop.
Variable res : string → Resolution.

(** A completed loop met no exception. *)
Lemma resolve_all_Ok_no_raise st xs st' :
  resolve_all res st xs = Ok st' → ∀ x e, x ∈ xs → res x ≠ Raised e.
Proof.
  revert st. induction xs as [|x0 xs IH]; intros st Hrun x e Hin.
  - by apply elem_of_nil in Hin.
  - simpl in Hrun. apply elem_of_cons in Hin as [->|Hin].
    + intros Hx. rewrite Hx in Hrun. done.
    + destruct (record x0 (res x0) st) as [st0|] eqn:Hrec; [|done].
      by apply (IH st0).
Qed.

(** An aborted loop stopped at an identifier that raised. *)
Lemma resolve_all_Err st xs e :
  resolve_all res st xs = Err e → ∃ x, x ∈ xs ∧ res x = Raised e.
Proof.
  revert st. induction xs as [|x0 xs IH]; intros st Hrun; simpl in Hrun; [done|].
  destruct (res x0) as [|y|e0] eqn:Hx; simpl in Hrun.
  - destruct (IH _ Hrun) as (x & Hin & Hr). exists x. split; [by right | done].
  - destruct (IH _ Hrun) as (x & Hin & Hr). exists x. split; [by right | done].
  - exists x0. split; [by left | congruence].
Qed.

(** Without an exception the loop completes. *)
Lemma resolve_all_total st xs :
  (∀ x e, x ∈ xs → res x ≠ Raised e) → ∃ st', resolve_all res st xs = Ok st'.
Proof.
  intros Hno. destruct (resolve_all res st xs) as [st'|e] eqn:Hrun; [by eexists|].
  apply resolve_all_Err in Hrun as (x & Hin & Hr). by destruct (Hno x e).
Qed.

(** The mapping after a completed loop. *)
Lemma resolve_all_founded st xs st' x :
  resolve_all res st xs = Ok st' →
  st'.1 !! x =
    if decide (x ∈ xs) then
      match res x with Matched y => Some y | _ => st.1 !! x end
    else st.1 !! x.
Proof.
  revert st. induction xs as [|x0 xs IH]; intros st Hrun; simpl in Hrun.
  - injection Hrun as <-. by rewrite decide_False by apply not_elem_of_nil.
  - destruct (record x0 (res x0) st) as [st0|] eqn:Hrec; [|done].
    rewrite (IH _ Hrun). clear IH Hrun.
    assert (Hst0 : st0.1 !! x =
              if decide (x = x0) then
                match res x with Matched y => Some y | _ => st.1 !! x end
              else st.1 !! x).
    { destruct (decide (x = x0)) as [->|Hne];
        destruct (res x0) as [|y0|e0]; simpl in Hrec; simplify_eq; simpl; try done.
      - by rewrite lookup_insert_eq.
      - by rewrite lookup_insert_ne. }
    destruct (decide (x = x0)) as [->|Hne].
    + rewrite (decide_True (P := x0 ∈ x0 :: xs)) by (by left).
      rewrite Hst0. destruct (decide (x0 ∈ xs)); by destruct (res x0).
    + rewrite Hst0. destruct (decide (x ∈ xs)) as [Hin|Hnin].
      * by rewrite (decide_True (P := x ∈ x0 :: xs)) by (by right).
      * rewrite (decide_False (P := x ∈ x0 :: xs)); [done|].
        by intros [?|?]%elem_of_cons.
Qed.

(** The set after a completed loop. *)
Lemma resolve_all_unavailable st xs st' x :
  resolve_all res st xs = Ok st' →
  x ∈ st'.2 ↔ x ∈ st.2 ∨ (x ∈ xs ∧ res x = Unmatched).
Proof.
  revert st. induction xs as [|x0 xs IH]; intros st Hrun; simpl in Hrun.
  - injection Hrun as <-. split; [by left|]. intros [?|[[]%elem_of_nil _]]. done.
  - destruct (record x0 (res x0) st) as [st0|] eqn:Hrec; [|done].
    rewrite (IH _ Hrun). clear IH Hrun.
    destruct (res x0) as [|y0|e0] eqn:Hx0; simpl in Hrec; simplify_eq; simpl.
    + rewrite elem_of_union, elem_of_singleton, elem_of_cons.
      intuition (subst; auto).
    + rewrite elem_of_cons. intuition (subst; auto; congruence).
Qed.

(** A completed loop gives the same result for the same identifiers in any
    order and multiplicity. *)
Lemma resolve_all_order_Ok st xs xs' st' :
  (∀ x, x ∈ xs ↔ x ∈ xs') →
  resolve_all res st xs = Ok st' →
  resolve_all res st xs' = Ok st'.
Proof.
  intros Hsame H1.
  destruct (resolve_all_total st xs') as [st'' H2].
  { intros x e Hin. apply (resolve_all_Ok_no_raise _ _ _ H1). by apply Hsame. }
  rewrite H2. f_equal. destruct st' as [f1 u1], st'' as [f2 u2]. f_equal.
  - apply map_eq. intros x.
    pose proof (resolve_all_founded _ _ _ x H1) as E1.
    pose proof (resolve_all_founded _ _ _ x H2) as E2.
    simpl in E1, E2. rewrite E1, E2.
    destruct (decide (x ∈ xs)) as [Hx|Hx], (decide (x ∈ xs')) as [Hx'|Hx'];
      try done.
    + destruct Hx'. by apply Hsame.
    + destruct Hx. by apply Hsame.
  - apply set_eq. intros x.
    pose proof (resolve_all_unavailable _ _ _ x H1) as E1.
    pose proof (resolve_all_unavailable _ _ _ x H2) as E2.
    simpl in E1, E2. rewrite E1, E2, Hsame. done.
Qed.
End Loop.

(** ** Names and quoted texts as SQLite reads them *)

Lemma sql_table_exact db table t :
  db !! table = Some t → sql_table db table = Some t.
Proof. intros H. unfold sql_table. by rewrite H. Qed.

Lemma sql_column_exact t name cell :
  column t name = Some cell → sql_column t name = Some cell.
Proof. intros H. unfold sql_column. by rewrite H. Qed.

Lemma hop1_rows_literal t metabolite :
  literal t metabolite →
  hop1_rows t metabolite = filter (λ r, row_id r = metabolite) (rows t).
Proof. intros H. unfold hop1_rows. by rewrite H. Qed.

Lemma hop2_rows_literal t tag inchikey id :
  literal t inchikey → literal t id →
  hop2_rows t tag inchikey id =
    filter (λ r, row_inchikey r = inchikey ∧ tag r = id) (rows t).
Proof. intros Hk Hid. unfold hop2_rows. by rewrite Hk, Hid. Qed.

(** Rows are selected only by statements whose quoted texts are read. *)
Lemma select_inchikey_read t metabolite k ks :
  select_inchikey t metabolite = k :: ks → is_Some (operand t metabolite).
Proof.
  unfold select_inchikey, hop1_rows.
  destruct (operand t metabolite); [by eexists | done].
Qed.


(** The keys hop 1 returns are cells of the table. *)
Lemma select_inchikey_cell t metabolite k :
  k ∈ select_inchikey t metabolite → ∃ r, r ∈ rows t ∧ row_inchikey r = k.
Proof.
  unfold select_inchikey, hop1_rows. intros (r & -> & Hr)%list_elem_of_fmap.
  destruct (operand t metabolite); [|by apply elem_of_nil in Hr].
  apply list_elem_of_filter in Hr as [_ Hr]. by exists r.
Qed.

Lemma elem_of_select_inchikey t metabolite k :
  literal t metabolite →
  k ∈ select_inchikey t metabolite ↔
  ∃ r, r ∈ rows t ∧ row_id r = metabolite ∧ row_inchikey r = k.
Proof.
  intros Hlit. unfold select_inchikey. rewrite (hop1_rows_literal _ _ Hlit).
  rewrite list_elem_of_fmap. split.
  - intros (r & -> & [Hid Hin]%list_elem_of_filter). by exists r.
  - intros (r & Hin & Hid & <-). exists r. split; [done|].
    by apply list_elem_of_filter.
Qed.

Lemma elem_of_select_id t tag inchikey id y :
  literal t inchikey → literal t id →
  y ∈ select_id t tag inchikey id ↔
  ∃ r, r ∈ rows t ∧ row_id r = y ∧ row_inchikey r = inchikey ∧ tag r = id.
Proof.
  intros Hk Hid. unfold select_id. rewrite (hop2_rows_literal _ _ _ _ Hk Hid).
  rewrite list_elem_of_fmap. split.
  - intros (r & -> & [[Hk' Htag] Hin]%list_elem_of_filter). by exists r.
  - intros (r & Hin & <- & Hk' & Htag). exists r. split; [done|].
    by apply list_elem_of_filter.
Qed.

(** [resolve] on an open database in which the table name resolves. *)
Lemma resolve_on_table db t table id field metabolite :
  sql_table db table = Some t →
  resolve (Some db) table id field metabolite =
  match operand t metabolite with
  | None => Raised OperationalError
  | Some _ =>
      match select_inchikey t metabolite with
      | [] => Unmatched
      | inchikey :: _ =>
          match sql_column t field with
          | None => Raised OperationalError
          | Some tag =>
              match operand t inchikey, operand t id with
              | Some _, Some _ =>
                  match select_id t tag inchikey id with
                  | [] => Raised IndexError
                  | molecules :: _ => Matched molecules
                  end
              | _, _ => Raised OperationalError
              end
          end
      end
  end.
Proof.
  intros Ht. unfold resolve. simpl. rewrite Ht.
  destruct (operand t metabolite); [|done].
  destruct (select_inchikey t metabolite) as [|k ks]; [done|].
  destruct (sql_column t field); [|done].
  by destruct (operand t k), (operand t id).
Qed.


Lemma resolve_Matched cursor table id field metabolite molecules :
  resolve cursor table id field metabolite = Matched molecules →
  ∃ db t tag inchikey ks ys,
    cursor = Some db ∧ sql_table db table = Some t ∧
    sql_column t field = Some tag ∧
    select_inchikey t metabolite = inchikey :: ks ∧
    select_id t tag inchikey id = molecules :: ys.
Proof.
  destruct cursor as [db|]; [|done].
  destruct (sql_table db table) as [t|] eqn:Ht;
    [|by unfold resolve; simpl; rewrite Ht].
  rewrite (resolve_on_table _ _ _ _ _ _ Ht).
  destruct (operand t metabolite); [|done].
  destruct (select_inchikey t metabolite) as [|k ks] eqn:Hk; [done|].
  destruct (sql_column t field) as [tag|] eqn:Htag; [|done].
  destruct (operand t k); [|done]. destruct (operand t id); [|done].
  destruct (select_id t tag k id) as [|y ys] eqn:Hy; [done|].
  intros [= <-]. by exists db, t, tag, k, ks, ys.
Qed.

Lemma resolve_Unmatched cursor table id field metabolite :
  resolve cursor table id field metabolite = Unmatched →
  ∃ db t, cursor = Some db ∧ sql_table db table = Some t ∧
          is_Some (operand t metabolite) ∧
          select_inchikey t metabolite = [].
Proof.
  destruct cursor as [db|]; [|done].
  destruct (sql_table db table) as [t|] eqn:Ht;
    [|by unfold resolve; simpl; rewrite Ht].
  rewrite (resolve_on_table _ _ _ _ _ _ Ht).
  destruct (operand t metabolite) as [o|] eqn:Ho; [|done].
  destruct (select_inchikey t metabolite) as [|k ks] eqn:Hk.
  - intros _. exists db, t. by rewrite Ho.
  - destruct (sql_column t field) as [tag|]; [|done].
    destruct (operand t k); [|done]. destruct (operand t id); [|done].
    by destruct (select_id t tag k id).
Qed.

(** When the target tag and the keys of the table are read, an identifier
    that is read can only raise through the unchecked [[0]] on an empty
    second result. *)
Lemma resolve_Raised_read db t tag table id field x e :
  sql_table db table = Some t →
  sql_column t field = Some tag →
  is_Some (operand t id) →
  (∀ r, r ∈ rows t → is_Some (operand t (row_inchikey r))) →
  is_Some (operand t x) →
  resolve (Some db) table id field x = Raised e →
  e = IndexError ∧
  ∃ inchikey ks, select_inchikey t x = inchikey :: ks ∧
                 select_id t tag inchikey id = [].
Proof.
  intros Ht Htag [oid Hoid] Hkeys [ox Hox].
  rewrite (resolve_on_table _ _ _ _ _ _ Ht), Hox, Htag.
  destruct (select_inchikey t x) as [|k ks] eqn:Hk; [done|].
  assert (Hin : k ∈ select_inchikey t x) by (rewrite Hk; by left).
  apply select_inchikey_cell in Hin as (r & Hr & <-).
  destruct (Hkeys r Hr) as [ok ->]. rewrite Hoid.
  destruct (select_id t tag (row_inchikey r) id) as [|y ys] eqn:Hy; [|done].
  intros [= <-]. split; [done|]. by exists (row_inchikey r), ks.
Qed.

(** ** [convert] as a whole *)

Lemma convert_iter_outcome env order database table id field :
  outcome (convert_iter env order database table id field) =
  match sqlite3_Connection env database with
  | Some cursor => resolve_all (resolve cursor table id field) (∅, ∅) order
  | None => Err OperationalError
  end.
Proof.
  unfold convert_iter, connect, lift, log, emit.
  destruct (sqlite3_Connection env database) as [cursor|]; simpl; [|done].
  pose proof (for_each_outcome cursor table id field (∅, ∅) order) as H.
  unfold outcome in H.
  by destruct (for_each (convert_body cursor table id field) (∅, ∅) order).
Qed.

(** A completed [convert]: the connection was opened, no identifier raised,
    and the two accumulators hold exactly what the identifiers resolve to. *)
Lemma convert_iter_Ok env order database table id field founded_ids unavailable_ids :
  outcome (convert_iter env order database table id field)
    = Ok (founded_ids, unavailable_ids) →
  ∃ cursor,
    sqlite3_Connection env database = Some cursor ∧
    (∀ x e, x ∈ order → resolve cursor table id field x ≠ Raised e) ∧
    (∀ x y, founded_ids !! x = Some y ↔
            x ∈ order ∧ resolve cursor table id field x = Matched y) ∧
    (∀ x, x ∈ unavailable_ids ↔
          x ∈ order ∧ resolve cursor table id field x = Unmatched).
Proof.
  rewrite convert_iter_outcome.
  destruct (sqlite3_Connection env database) as [cursor|]; [|done].
  intros Hrun. exists cursor. split; [done|]. split; [|split].
  - intros x e. by apply (resolve_all_Ok_no_raise _ _ _ _ Hrun).
  - intros x y.
    pose proof (resolve_all_founded _ _ _ _ x Hrun) as E. simpl in E.
    rewrite E, lookup_empty. destruct (decide (x ∈ order)) as [Hin|Hnin].
    + destruct (resolve cursor table id field x); naive_solver.
    + naive_solver.
  - intros x.
    pose proof (resolve_all_unavailable _ _ _ _ x Hrun) as E. simpl in E.
    rewrite E. set_solver.
Qed.

Lemma convert_Ok env input database table id field founded_ids unavailable_ids :
  outcome (convert env input database table id field)
    = Ok (founded_ids, unavailable_ids) →
  ∃ cursor,
    sqlite3_Connection env database = Some cursor ∧
    (∀ x e, x ∈ input → resolve cursor table id field x ≠ Raised e) ∧
    (∀ x y, founded_ids !! x = Some y ↔
            x ∈ input ∧ resolve cursor table id field x = Matched y) ∧
    (∀ x, x ∈ unavailable_ids ↔
          x ∈ input ∧ resolve cursor table id field x = Unmatched).
Proof.
  intros (cursor & Hc & Hno & Hf & Hu)%convert_iter_Ok. exists cursor.
  split; [done|]. split; [|split].
  - intros x e Hx. apply Hno. by apply elem_of_elements.
  - intros x y. by rewrite Hf, elem_of_elements.
  - intros x. by rewrite Hu, elem_of_elements.
Qed.

(** Whenever [convert] returns, its two results split the input. *)
Lemma convert_partition env input database table id field founded_ids unavailable_ids :
  outcome (convert env input database table id field)
    = Ok (founded_ids, unavailable_ids) →
  dom founded_ids ∪ unavailable_ids = input ∧ dom founded_ids ## unavailable_ids.
Proof.
  intros (cursor & _ & Hno & Hf & Hu)%convert_Ok. split.
  - apply set_eq. intros x. rewrite elem_of_union, elem_of_dom, Hu. split.
    + intros [[y [Hin _]%Hf]|[Hin _]]; done.
    + intros Hin. destruct (resolve cursor table id field x) as [|y|e] eqn:Hr.
      * by right.
      * left. exists y. by apply Hf.
      * by destruct (Hno x e).
  - intros x [y [_ Hm]%Hf]%elem_of_dom [_ Hun]%Hu. congruence.
Qed.

(** An identifier for which the first statement selects no row is put aside
    and the loop goes on. *)
Lemma hop1_miss_unmatched db t table id field st metabolite :
  sql_table db table = Some t →
  is_Some (operand t metabolite) →
  select_inchikey t metabolite = [] →
  outcome (convert_body (Some db) table id field st metabolite)
    = Ok (st.1, {[metabolite]} ∪ st.2).
Proof.
  intros Ht [o Ho] Hk.
  rewrite convert_body_outcome, (resolve_on_table _ _ _ _ _ _ Ht), Ho.
  by rewrite Hk.
Qed.

(** An identifier whose InChIKey has no row under the requested source makes
    the whole call raise, whatever else the input holds. *)
Lemma hop2_miss_raises env input database table id field db t tag X inchikey ks :
  sqlite3_Connection env database = Some (Some db) →
  sql_table db table = Some t →
  sql_column t field = Some tag →
  X ∈ input →
  select_inchikey t X = inchikey :: ks →
  select_id t tag inchikey id = [] →
  ∃ e, outcome (convert env input database table id field) = Err e.
Proof.
  intros Hc Ht Htag Hin Hk Hy.
  assert (HX : ∃ e, resolve (Some db) table id field X = Raised e).
  { rewrite (resolve_on_table _ _ _ _ _ _ Ht).
    destruct (select_inchikey_read _ _ _ _ Hk) as [o ->]. rewrite Hk, Htag, Hy.
    destruct (operand t inchikey), (operand t id); by eexists. }
  destruct HX as [e0 HX].
  destruct (outcome (convert env input database table id field))
    as [[f u]|e] eqn:Hrun; [|by exists e].
  apply convert_Ok in Hrun as (cursor & Hc' & Hno & _).
  rewrite Hc in Hc'. injection Hc' as <-. by destruct (Hno X e0).
Qed.

(** Whenever [convert] maps [X] to [Y], the table and the lookup column are
    given by plain names, and the identifier, its InChIKey and the target tag
    are read as the strings they spell, the table holds a row with ID [X] and
    a row with ID [Y] under the requested source, both with the same
    InChIKey. *)
Lemma convert_sound_literal env input database table id field
    founded_ids unavailable_ids db t X Y :
  sqlite3_Connection env database = Some (Some db) →
  plain_name table = true →
  plain_name field = true →
  sql_table db table = Some t →
  literal t X → literal t id →
  (∀ r, r ∈ rows t → literal t (row_inchikey r)) →
  outcome (convert env input database table id field)
    = Ok (founded_ids, unavailable_ids) →
  founded_ids !! X = Some Y →
  ∃ tag K r1 r2,
    sql_column t field = Some tag ∧
    r1 ∈ rows t ∧ row_id r1 = X ∧ row_inchikey r1 = K ∧
    r2 ∈ rows t ∧ row_id r2 = Y ∧ row_inchikey r2 = K ∧ tag r2 = id.
Proof.
  intros Hc _ _ Ht HX Hid Hkeys (cursor & Hc' & _ & Hf & _)%convert_Ok [_ Hm]%Hf.
  rewrite Hc in Hc'. injection Hc' as <-.
  apply resolve_Matched in Hm
    as (db' & t' & tag & K & ks & ys & [= <-] & Ht' & Htag & Hk & Hy).
  rewrite Ht in Ht'. injection Ht' as <-.
  assert (H1 : K ∈ select_inchikey t X) by (rewrite Hk; by left).
  apply (elem_of_select_inchikey _ _ _ HX) in H1 as (r1 & Hr1 & Hid1 & Hk1).
  assert (H2 : Y ∈ select_id t tag K id) by (rewrite Hy; by left).
  rewrite <- Hk1 in H2.
  apply (elem_of_select_id _ _ _ _ _ (Hkeys r1 Hr1) Hid) in H2
    as (r2 & Hr2 & Hid2 & Hk2 & Htag2).
  exists tag, K, r1, r2. rewrite <- Hk1. done.
Qed.

(** ** Claims about [convert] *)

(** C1: an identifier absent at hop 1 is classified as unmatched, but the
    claim's second half fails on the code. On the table of the
    specification's scenario, the input [{"C999"}] (its InChIKey XYZ999 has
    no HMDB row) does not end as unmatched: [fetchall()[0][0]] raises
    [IndexError] and [convert] returns nothing. *)
Theorem C1_hop2_miss_aborts :
  outcome (convert (Scenario.env []) {[ "C999" ]} "db" "mbroleplus" "HMDB" "database")
    = Err IndexError
  ∧ outcome (convert (Scenario.env []) {[ "UNKNOWN1" ]} "db" "mbroleplus" "HMDB" "database")
    = Ok (∅, {[ "UNKNOWN1" ]}).
Proof. split; vm_compute; reflexivity. Qed.

(** C3: the two results of a call that returns do split the input
    ([convert_partition]), but not every call returns: on the scenario of the
    specification, with input [{"C001", "C999", "UNKNOWN1"}], [convert]
    raises [IndexError] and yields no partition at all. *)
Theorem C3_scenario_no_partition :
  ∀ founded_ids unavailable_ids,
    outcome (convert (Scenario.env []) {[ "C001"; "C999"; "UNKNOWN1" ]}
               "db" "mbroleplus" "HMDB" "database")
    ≠ Ok (founded_ids, unavailable_ids).
Proof.
  intros f u.
  assert (H : outcome (convert (Scenario.env []) {[ "C001"; "C999"; "UNKNOWN1" ]}
                         "db" "mbroleplus" "HMDB" "database") = Err IndexError)
    by (vm_compute; reflexivity).
  rewrite H. done.
Qed.

(** C4: soundness fails on the code. The identifier is pasted between
    double quotes, which SQLite reads as a column name when there is such a
    column: on the table of the scenario the input [{"id"}] makes the first
    statement compare the ID of every row with itself, so [convert] maps
    ["id"] to HMDB0001 although no row has the ID ["id"]. *)
Theorem C4_column_name_is_matched :
  outcome (convert (Scenario.env []) {[ "id" ]} "db" "mbroleplus" "HMDB" "database")
    = Ok ({[ "id" := "HMDB0001" ]}, ∅)
  ∧ ∀ r, r ∈ rows Scenario.table → row_id r ≠ "id".
Proof.
  split; [vm_compute; reflexivity|].
  intros r Hr. unfold Scenario.table in Hr. simpl in Hr.
  repeat (apply elem_of_cons in Hr as [->|Hr]); try done.
  by apply elem_of_nil in Hr.
Qed.

(** C2, refuted: with two HMDB rows for the InChIKey of C001, [convert]
    records HMDB0001 alone; HMDB0002 is dropped. *)
Lemma C2_counterexample :
  ¬ records_full_match Synonyms.syn_env {[ "C001" ]} "db" "mbroleplus" "HMDB" "database".
Proof.
  intros H.
  specialize (H {[ "mbroleplus" := Synonyms.syn_table ]} Synonyms.syn_table row_source
                {[ "C001" := "HMDB0001" ]} ∅ "C001" "HMDB0001" "ABC123" []).
  assert (Hin : "HMDB0002" ∈ full_match Synonyms.syn_table row_source "ABC123" "HMDB").
  { apply elem_of_list_to_set. vm_compute. right. left. }
  rewrite H in Hin; [by apply elem_of_singleton in Hin | vm_compute; reflexivity ..].
Qed.

(** C2, amended: when the table and the lookup column are given by plain
    names, and the identifier, the InChIKeys of the table and the target tag
    are read as the strings they spell, the value recorded for a matched
    identifier is the ID of the first row, in the engine's row order, that
    has the InChIKey of the first row found for the identifier and the
    requested source. *)
Theorem C2_first_match env input database table id field
    founded_ids unavailable_ids db t X y :
  sqlite3_Connection env database = Some (Some db) →
  plain_name table = true →
  plain_name field = true →
  sql_table db table = Some t →
  literal t X →
  literal t id →
  (∀ r, r ∈ rows t → literal t (row_inchikey r)) →
  outcome (convert env input database table id field)
    = Ok (founded_ids, unavailable_ids) →
  founded_ids !! X = Some y →
  ∃ tag r1 rs1 r2 rs2,
    sql_column t field = Some tag ∧
    filter (λ r, row_id r = X) (rows t) = r1 :: rs1 ∧
    filter (λ r, row_inchikey r = row_inchikey r1 ∧ tag r = id) (rows t) = r2 :: rs2 ∧
    y = row_id r2.
Proof.
  intros Hc _ _ Ht HX Hid Hkeys (cursor & Hc' & _ & Hf & _)%convert_Ok [_ Hm]%Hf.
  rewrite Hc in Hc'. injection Hc' as <-.
  apply resolve_Matched in Hm
    as (db' & t' & tag & K & ks & ys & [= <-] & Ht' & Htag & Hk & Hy).
  rewrite Ht in Ht'. injection Ht' as <-.
  unfold select_inchikey in Hk. rewrite (hop1_rows_literal _ _ HX) in Hk.
  destruct (filter (λ r, row_id r = X) (rows t)) as [|r1 rs1] eqn:H1; [done|].
  injection Hk as <- _.
  assert (Hr1 : r1 ∈ rows t).
  { assert (Hin : r1 ∈ filter (λ r, row_id r = X) (rows t)) by (rewrite H1; by left).
    by apply list_elem_of_filter in Hin as [_ Hin]. }
  unfold select_id in Hy.
  rewrite (hop2_rows_literal _ _ _ _ (Hkeys r1 Hr1) Hid) in Hy.
  destruct (filter (λ r, row_inchikey r = row_inchikey r1 ∧ tag r = id) (rows t))
    as [|r2 rs2] eqn:H2; [done|].
  injection Hy as <- _. by exists tag, r1, rs1, r2, rs2.
Qed.

Lemma C2_first_match_witness :
  ∃ tag r1 rs1 r2 rs2,
    sql_column Synonyms.syn_table "database" = Some tag ∧
    filter (λ r, row_id r = "C001") (rows Synonyms.syn_table) = r1 :: rs1 ∧
    filter (λ r, row_inchikey r = row_inchikey r1 ∧ tag r = "HMDB")
      (rows Synonyms.syn_table) = r2 :: rs2 ∧
    "HMDB0001" = row_id r2.
Proof.
  apply (C2_first_match Synonyms.syn_env {[ "C001" ]} "db" "mbroleplus" "HMDB" "database"
           {[ "C001" := "HMDB0001" ]} ∅ {[ "mbroleplus" := Synonyms.syn_table ]}
           Synonyms.syn_table "C001" "HMDB0001").
  - reflexivity.
  - vm_compute. reflexivity.
  - vm_compute. reflexivity.
  - vm_compute. reflexivity.
  - vm_compute. reflexivity.
  - vm_compute. reflexivity.
  - intros r Hr. unfold Synonyms.syn_table in Hr. simpl in Hr.
    repeat (apply elem_of_cons in Hr as [->|Hr]); try (vm_compute; reflexivity).
    by apply elem_of_nil in Hr.
  - vm_compute. reflexivity.
  - vm_compute. reflexivity.
Defined.

(** C8: when the first statement selects rows for an identifier (one or
    several, agreeing on the InChIKey or not), the loop takes the InChIKey of
    the first row in row order and runs the second statement with that key;
    the turn records the first ID that statement selects, or raises when it
    selects none. For an identifier read as the string it spells, the rows
    selected are the rows with that ID. The table and the lookup column are
    given by plain names, and the key and the target tag are texts that are
    read between double quotes. *)
Theorem C8_first_row_key db t tag table id field st X r1 rs :
  plain_name table = true →
  plain_name field = true →
  sql_table db table = Some t →
  sql_column t field = Some tag →
  readable t (row_inchikey r1) →
  readable t id →
  hop1_rows t X = r1 :: rs →
  trace (convert_body (Some db) table id field st X) =
    [ EvLog root DEBUG (" Executing " +:+ sql_text (SQL_GET_INCHIKEY table X));
      EvExecute (SQL_GET_INCHIKEY table X);
      EvLog "convert" DEBUG
        (" Found inchikey " +:+ row_inchikey r1 +:+ " with ID  " +:+ X);
      EvLog "convert" DEBUG
        (sql_text (SQL_GET_ID_WITH_INCHIKEY table (row_inchikey r1) field id));
      EvExecute (SQL_GET_ID_WITH_INCHIKEY table (row_inchikey r1) field id) ]
  ∧ outcome (convert_body (Some db) table id field st X) =
    match select_id t tag (row_inchikey r1) id with
    | [] => Err IndexError
    | molecules :: _ => Ok (<[X := molecules]> st.1, st.2)
    end
  ∧ (literal t X → filter (λ r, row_id r = X) (rows t) = r1 :: rs).
Proof.
  intros _ _ Ht Htag [k Hkey] [s Hid] Hrows. destruct st as [f u].
  assert (Hk : select_inchikey t X = row_inchikey r1 :: (row_inchikey <$> rs))
    by (unfold select_inchikey; by rewrite Hrows).
  destruct (select_inchikey_read _ _ _ _ Hk) as [o Ho].
  assert (H1 : fetch (Some db) (SQL_GET_INCHIKEY table X)
               = Ok (row_inchikey r1 :: (row_inchikey <$> rs))).
  { simpl. by rewrite Ht, Ho, Hk. }
  assert (H2 : fetch (Some db) (SQL_GET_ID_WITH_INCHIKEY table (row_inchikey r1) field id)
               = Ok (select_id t tag (row_inchikey r1) id)).
  { simpl. by rewrite Ht, Htag, Hkey, Hid. }
  split; [|split].
  - unfold convert_body, execute, log, lift, emit. rewrite H1. simpl.
    simpl in H2. rewrite H2.
    destruct (select_id t tag (row_inchikey r1) id) as [|y ys]; simpl; [done|].
    by destruct (String.length y =? 0)%nat.
  - unfold convert_body, execute, log, lift, emit. rewrite H1. simpl.
    simpl in H2. rewrite H2.
    destruct (select_id t tag (row_inchikey r1) id) as [|y ys]; simpl; [done|].
    by destruct (String.length y =? 0)%nat.
  - intros Hlit. by rewrite <- (hop1_rows_literal _ _ Hlit).
Qed.

Lemma C8_first_row_key_witness :
  outcome (convert_body (Some Ambiguous.amb_db) "mbroleplus" "HMDB" "database" (∅, ∅) "X1")
    = Ok ({[ "X1" := "H1" ]}, ∅)
  ∧ filter (λ r, row_id r = "X1") (rows Ambiguous.amb_table)
    = [ {| row_id := "X1"; row_inchikey := "K1"; row_source := "KEGG" |};
        {| row_id := "X1"; row_inchikey := "K2"; row_source := "KEGG" |} ].
Proof.
  pose proof (C8_first_row_key Ambiguous.amb_db Ambiguous.amb_table row_source
                "mbroleplus" "HMDB" "database" (∅, ∅) "X1"
                {| row_id := "X1"; row_inchikey := "K1"; row_source := "KEGG" |}
                [ {| row_id := "X1"; row_inchikey := "K2"; row_source := "KEGG" |} ]
                eq_refl eq_refl eq_refl eq_refl
                (ex_intro _ (Literal "K1") eq_refl)
                (ex_intro _ (Literal "HMDB") eq_refl)
                eq_refl) as (_ & Hout & Hrows).
  split; [exact Hout | exact (Hrows eq_refl)].
Defined.



(** ** Reading the input *)

Example strip_line : strip "010"%char ("C001" +:+ newline) = "C001".
Proof. reflexivity. Qed.

Example strip_inner_kept :
  strip "010"%char (newline +:+ "a" +:+ newline +:+ "b" +:+ newline +:+ newline)
  = "a" +:+ newline +:+ "b".
Proof. reflexivity. Qed.

Lemma input_set_perm lines lines' :
  lines ≡ₚ lines' → input_set lines = input_set lines'.
Proof.
  intros Hp. apply set_eq. intros x. unfold input_set.
  rewrite !elem_of_list_to_set. by rewrite Hp.
Qed.

Lemma parse_input_file_outcome env file gz lines :
  open_file env gz file (if gz then "rb" else "r") = true →
  file_readlines env gz file = Some lines →
  outcome (_parse_input_file env file gz) =
    if gz then match lines with [] => Ok ∅ | _ :: _ => Err TypeError end
    else Ok (input_set lines).
Proof.
  intros Hopen Hread. unfold _parse_input_file, open_, readlines, log, lift, emit.
  rewrite Hopen, Hread. simpl. destruct gz; [by destruct lines | done].
Qed.

(** A call of [convert] that returns gives the same two results in whatever
    order the set is iterated. *)
Lemma convert_iter_order_Ok env order order' database table id field
    founded_ids unavailable_ids :
  (∀ x, x ∈ order ↔ x ∈ order') →
  outcome (convert_iter env order database table id field)
    = Ok (founded_ids, unavailable_ids) →
  outcome (convert_iter env order' database table id field)
    = Ok (founded_ids, unavailable_ids).
Proof.
  intros Hsame. rewrite !convert_iter_outcome.
  destruct (sqlite3_Connection env database) as [cursor|]; [|done].
  by apply resolve_all_order_Ok.
Qed.

(** C7: the order of the lines does not matter to a call that returns
    ([input_set_perm], [convert_iter_order_Ok]), but what the call gives for
    one identifier is not independent of the others. On the table of the
    scenario C001 alone is matched to HMDB0001; with C999 beside it (its
    InChIKey has no HMDB row) the call raises [IndexError] in either
    iteration order and nothing is returned for C001. *)
Theorem C7_outcome_lost_with_other_identifier :
  outcome (convert (Scenario.env []) {[ "C001" ]} "db" "mbroleplus" "HMDB" "database")
    = Ok ({[ "C001" := "HMDB0001" ]}, ∅)
  ∧ outcome (convert_iter (Scenario.env []) ["C001"; "C999"]
               "db" "mbroleplus" "HMDB" "database") = Err IndexError
  ∧ outcome (convert_iter (Scenario.env []) ["C999"; "C001"]
               "db" "mbroleplus" "HMDB" "database") = Err IndexError.
Proof. repeat split; vm_compute; reflexivity. Qed.

(** ** [validation] *)

Lemma table_listed (db : gmap string Table) table :
  bool_decide (table ∈ elements (dom db)) = bool_decide (is_Some (db !! table)).
Proof. apply bool_decide_ext. by rewrite elem_of_elements, elem_of_dom. Qed.

Lemma field_listed t field :
  bool_decide (field ∈ columns t) = bool_decide (is_Some (column t field)).
Proof.
  apply bool_decide_ext. unfold columns, column.
  rewrite !elem_of_cons, elem_of_nil.
  repeat case_decide; subst; split; intros; eauto.
  - exfalso. intuition congruence.
  - by destruct (is_Some_None (A := Row → string)).
Qed.

Lemma source_listed t (tag : Row → string) id :
  id ∈ remove_dups (tag <$> rows t) ↔ ∃ r, r ∈ rows t ∧ tag r = id.
Proof. rewrite elem_of_remove_dups, list_elem_of_fmap. naive_solver. Qed.



(** ** [main] *)

Lemma validation_no_resolution env id database table input_file output_file logfile field :
  Forall (λ ev, is_resolution ev = false)
    (trace (validation env id database table input_file output_file logfile field)).
Proof.
  unfold validation, exists_, connect, execute, log, lift, emit.
  destruct (os_path_exists env database); simpl; [|by repeat constructor].
  destruct (sqlite3_Connection env database) as [cursor|]; simpl;
    [|by repeat constructor].
  destruct (fetch cursor SQL_TABLE_EXISTS) as [tables|]; simpl;
    [|by repeat constructor].
  destruct (bool_decide (table ∈ tables)); simpl; [|by repeat constructor].
  destruct (fetch cursor (SQLITE_COLUMNS_OF_TABLE table)) as [cols|]; simpl;
    [|by repeat constructor].
  destruct (bool_decide (field ∈ cols)); simpl; [|by repeat constructor].
  destruct (fetch cursor (SQL_SELECT_SOURCES field table)) as [sources|]; simpl;
    [|by repeat constructor].
  destruct (bool_decide (id ∈ sources)); simpl; [|by repeat constructor].
  destruct (os_path_exists env input_file),
    (os_path_exists env (os_path_dirname env output_file)); simpl;
    by repeat constructor.
Qed.

(** A positive verdict means the four database checks passed. *)
Lemma validation_true_inv env id database table input_file output_file logfile field :
  outcome (validation env id database table input_file output_file logfile field)
    = Ok true →
  ∃ db t tag,
    os_path_exists env database = true ∧
    sqlite3_Connection env database = Some (Some db) ∧
    db !! table = Some t ∧ column t field = Some tag ∧
    ∃ r, r ∈ rows t ∧ tag r = id.
Proof.
  unfold validation, exists_, connect, execute, log, lift, emit, fetch, run_query,
    sql_table, sql_column.
  destruct (os_path_exists env database); simpl; [|done].
  destruct (sqlite3_Connection env database) as [[db|]|]; simpl; [|done..].
  rewrite table_listed.
  destruct (db !! table) as [t|] eqn:Ht; simpl; [|done].
  rewrite field_listed.
  destruct (column t field) as [tag|] eqn:Htag; simpl; [|done].
  destruct (bool_decide (id ∈ remove_dups (tag <$> rows t))) eqn:Hid; simpl; [|done].
  intros _. exists db, t, tag. repeat split; try done.
  apply bool_decide_eq_true_1 in Hid. by apply source_listed.
Qed.

Lemma bind_ret {A B} (a : A) (k : A → M B) : bind ([], Ok a) k = k a.
Proof. unfold bind. by destruct (k a). Qed.

Lemma parse_args_choice given :
  args_loglevel given ∈ ["debug"; "info"; "warn"; "error"; "critical"] →
  _parse_args given = ([], Ok given).
Proof. intros Hin. unfold _parse_args. by rewrite bool_decide_eq_true_2. Qed.

Lemma parse_args_refused given :
  args_loglevel given ∉ ["debug"; "info"; "warn"; "error"; "critical"] →
  _parse_args given =
    ([EvUsage "--loglevel/-ll" (args_loglevel given)], Err (SystemExit 2)).
Proof. intros Hin. unfold _parse_args. by rewrite bool_decide_eq_false_2. Qed.

(** [main] past [_parse_args], for a log level among the choices. *)
Ltac enter_main Hin :=
  unfold main; rewrite (parse_args_choice _ Hin), bind_ret; cbv beta.

Lemma parse_loglevel_cases loglevel :
  (∃ level, outcome (_parse_loglevel loglevel) = Ok level ∧
            trace (_parse_loglevel loglevel) = [])
  ∨ (outcome (_parse_loglevel loglevel) = Err (SystemExit (-1)) ∧
     ∃ msg, trace (_parse_loglevel loglevel) = [EvPrint "stdout" msg]).
Proof.
  unfold _parse_loglevel. repeat case_decide; eauto.
Qed.

Lemma parse_loglevel_choice loglevel :
  loglevel ∈ ["debug"; "info"; "warn"; "error"; "critical"] →
  ∃ level, outcome (_parse_loglevel loglevel) = Ok level.
Proof.
  intros Hin. destruct (parse_loglevel_cases loglevel) as [(level & H & _)|[H _]];
    [by exists level|].
  unfold _parse_loglevel in H.
  rewrite !elem_of_cons, elem_of_nil in Hin.
  repeat case_decide; try done. exfalso. intuition congruence.
Qed.

Lemma basicConfig_cases env filename level :
  trace (basicConfig env filename level) = [EvBasicConfig filename level] ∧
  outcome (basicConfig env filename level) =
    if open_file env false filename "a" then Ok tt else Err OSError.
Proof. unfold basicConfig, emit. by destruct (open_file env false filename "a"). Qed.

Lemma for_each_emit_outcome {A} (ev : A → Event) (xs : list A) :
  outcome (for_each (λ _ x, emit (ev x)) tt xs) = Ok tt.
Proof.
  induction xs as [|x xs IH]; [done|].
  cbn [for_each]. by rewrite outcome_bind.
Qed.

Lemma save_compounds_outcome env file gzipped compounds :
  outcome (save_compounds env file gzipped compounds) =
    if open_file env gzipped file "wt" then Ok tt else Err OSError.
Proof.
  unfold save_compounds, open_. rewrite outcome_bind.
  destruct (open_file env gzipped file "wt"); [|done].
  apply for_each_emit_outcome.
Qed.

Lemma div_str_outcome env a b :
  outcome (div_str env a b) =
    if (b =? 0)%nat then Err ZeroDivisionError else Ok (float_str env a b).
Proof. unfold div_str. by destruct (b =? 0)%nat. Qed.

(** A negative verdict ends the process before any resolution. *)
Lemma main_invalid env args :
  outcome (validation env (args_id args) (args_database args) (args_table args)
             (args_input args) (args_output args) (args_logfile args)
             (args_field args)) = Ok false →
  exit_status (outcome (main env args)) ≠ 0%Z ∧
  Forall (λ ev, is_resolution ev = false) (trace (main env args)) ∧
  (args_loglevel args ∈ ["debug"; "info"; "warn"; "error"; "critical"] →
   open_file env false (args_logfile args) "a" = true →
   outcome (main env args) = Err (SystemExit 1)).
Proof.
  intros Hv.
  destruct (decide (args_loglevel args
                      ∈ ["debug"; "info"; "warn"; "error"; "critical"]))
    as [Hin|Hnot].
  2: { unfold main. rewrite (parse_args_refused _ Hnot). simpl.
       split; [done|]. split; [by repeat constructor | done]. }
  enter_main Hin.
  rewrite outcome_bind, trace_bind.
  destruct (parse_loglevel_cases (args_loglevel args))
    as [(level & Hlevel & Htr)|(Hexit & msg & Htr)]; rewrite Htr.
  2: { rewrite Hexit. split; [done|]. split; [by repeat constructor|].
       intros [level Hlevel]%parse_loglevel_choice. congruence. }
  rewrite Hlevel. cbv beta iota.
  rewrite outcome_bind, trace_bind.
  destruct (basicConfig_cases env (args_logfile args) level) as [-> ->].
  destruct (open_file env false (args_logfile args) "a").
  2: { split; [done|]. split; [by repeat constructor | done]. }
  rewrite outcome_bind, trace_bind, Hv. cbv beta iota. split; [done|].
  split; [|done].
  simpl. constructor; [done|]. apply Forall_app. split.
  - apply validation_no_resolution.
  - by repeat constructor.
Qed.

(** A run whose steps all succeed returns, whatever was left unmatched. *)
Lemma main_completes env args input founded_ids unavailable_ids :
  args_loglevel args ∈ ["debug"; "info"; "warn"; "error"; "critical"] →
  open_file env false (args_logfile args) "a" = true →
  outcome (validation env (args_id args) (args_database args) (args_table args)
             (args_input args) (args_output args) (args_logfile args)
             (args_field args)) = Ok true →
  outcome (_parse_input_file env (args_input args) (args_gzipped_input args))
    = Ok input →
  input ≠ ∅ →
  outcome (convert env input (args_database args) (args_table args)
             (args_id args) (args_field args))
    = Ok (founded_ids, unavailable_ids) →
  open_file env (args_gzipped_output args) (args_output args) "wt" = true →
  open_file env false (args_discarded_file args) "wt" = true →
  outcome (main env args) = Ok tt.
Proof.
  intros Hin Hlog Hv Hparse Hne Hconv Hout Hdisc.
  destruct (parse_loglevel_choice _ Hin) as [level Hlevel].
  assert (Hsize : (size input =? 0)%nat = false).
  { apply Nat.eqb_neq. intros Hz. apply Hne. by apply size_empty_iff, leibniz_equiv in Hz. }
  enter_main Hin.
  rewrite outcome_bind, Hlevel. cbv beta iota.
  rewrite outcome_bind.
  destruct (basicConfig_cases env (args_logfile args) level) as [_ ->].
  rewrite Hlog. cbv beta iota.
  rewrite outcome_bind, Hv. cbv beta iota. unfold negb.
  rewrite outcome_bind, Hparse. cbv beta iota.
  rewrite outcome_bind, Hconv. cbv beta iota.
  rewrite outcome_bind, div_str_outcome, Hsize.
  rewrite outcome_bind. unfold log at 1, emit at 1. unfold outcome at 1. cbn [snd].
  rewrite outcome_bind, div_str_outcome, Hsize.
  rewrite outcome_bind. unfold log at 1, emit at 1. unfold outcome at 1. cbn [snd].
  rewrite outcome_bind, !save_compounds_outcome, Hout, Hdisc. done.
Qed.

(** With no input line the summary divides by zero. *)
Lemma main_empty_input env args :
  args_loglevel args ∈ ["debug"; "info"; "warn"; "error"; "critical"] →
  open_file env false (args_logfile args) "a" = true →
  outcome (validation env (args_id args) (args_database args) (args_table args)
             (args_input args) (args_output args) (args_logfile args)
             (args_field args)) = Ok true →
  outcome (_parse_input_file env (args_input args) (args_gzipped_input args))
    = Ok ∅ →
  outcome (convert env ∅ (args_database args) (args_table args)
             (args_id args) (args_field args)) = Ok (∅, ∅)
  ∧ outcome (main env args) = Err ZeroDivisionError.
Proof.
  intros Hin Hlog Hv Hparse.
  destruct (parse_loglevel_choice _ Hin) as [level Hlevel].
  assert (Hconv : outcome (convert env ∅ (args_database args) (args_table args)
                             (args_id args) (args_field args)) = Ok (∅, ∅)).
  { apply validation_true_inv in Hv as (db & t & tag & _ & Hc & _).
    unfold convert. rewrite convert_iter_outcome, Hc, elements_empty. done. }
  split; [done|]. enter_main Hin.
  rewrite outcome_bind, Hlevel. cbv beta iota.
  rewrite outcome_bind.
  destruct (basicConfig_cases env (args_logfile args) level) as [_ ->].
  rewrite Hlog. cbv beta iota.
  rewrite outcome_bind, Hv. cbv beta iota. unfold negb.
  rewrite outcome_bind, Hparse. cbv beta iota.
  rewrite outcome_bind, Hconv. cbv beta iota.
  rewrite outcome_bind, div_str_outcome, size_empty. done.
Qed.

(** C6: after a negative verdict of [validation] the process ends with a
    status other than 0 and its trace holds no event of [convert]; a run
    that returns ends with status 0, and a run whose steps all succeed
    returns whatever identifiers were left unmatched. *)
Theorem C6_exit_codes env args :
  let check :=
    validation env (args_id args) (args_database args) (args_table args)
      (args_input args) (args_output args) (args_logfile args) (args_field args) in
  (outcome check = Ok false →
     exit_status (outcome (main env args)) ≠ 0%Z ∧
     Forall (λ ev, is_resolution ev = false) (trace (main env args)))
  ∧ (outcome (main env args) = Ok tt → exit_status (outcome (main env args)) = 0%Z)
  ∧ (∀ input founded_ids unavailable_ids,
       args_loglevel args ∈ ["debug"; "info"; "warn"; "error"; "critical"] →
       open_file env false (args_logfile args) "a" = true →
       outcome check = Ok true →
       outcome (_parse_input_file env (args_input args) (args_gzipped_input args))
         = Ok input →
       input ≠ ∅ →
       outcome (convert env input (args_database args) (args_table args)
                  (args_id args) (args_field args))
         = Ok (founded_ids, unavailable_ids) →
       open_file env (args_gzipped_output args) (args_output args) "wt" = true →
       open_file env false (args_discarded_file args) "wt" = true →
       outcome (main env args) = Ok tt ∧
       exit_status (outcome (main env args)) = 0%Z).
Proof.
  intros check. subst check. split; [|split].
  - intros Hv. destruct (main_invalid env args Hv) as (Hexit & Htrace & _). done.
  - by intros ->.
  - intros input f u Hlevel Hlog Hv Hparse Hne Hconv Hout Hdisc.
    by rewrite (main_completes env args input f u).
Qed.

Lemma C6_exit_codes_witness :
  exit_status (outcome (main (Scenario.env []) Scenario.args_chebi)) ≠ 0%Z
  ∧ exit_status
      (outcome (main (Scenario.env ["C001" +:+ newline; "UNKNOWN1" +:+ newline])
                  Scenario.args)) = 0%Z.
Proof.
  split.
  - destruct (C6_exit_codes (Scenario.env []) Scenario.args_chebi) as [H _].
    destruct H as [Hexit _]; [vm_compute; reflexivity | exact Hexit].
  - destruct (C6_exit_codes
                (Scenario.env ["C001" +:+ newline; "UNKNOWN1" +:+ newline])
                Scenario.args) as (_ & _ & H).
    refine (proj2 (H {[ "C001"; "UNKNOWN1" ]} {[ "C001" := "HMDB0001" ]}
                     {[ "UNKNOWN1" ]} _ _ _ _ _ _ _ _));
      try (vm_compute; reflexivity).
    + right. left.
    + intros Hempty. vm_compute in Hempty. discriminate Hempty.
Defined.

(** C9: [convert] of the empty set returns an empty mapping and an empty
    set, but the run does not end there. [main] then formats
    [len(converted.keys())/len(input_compounds)] with a zero divisor and
    raises [ZeroDivisionError]; the process ends with status 1. *)
Theorem C9_empty_input_raises env args :
  args_loglevel args ∈ ["debug"; "info"; "warn"; "error"; "critical"] →
  open_file env false (args_logfile args) "a" = true →
  outcome (validation env (args_id args) (args_database args) (args_table args)
             (args_input args) (args_output args) (args_logfile args)
             (args_field args)) = Ok true →
  outcome (_parse_input_file env (args_input args) (args_gzipped_input args))
    = Ok ∅ →
  outcome (convert env ∅ (args_database args) (args_table args)
             (args_id args) (args_field args)) = Ok (∅, ∅)
  ∧ outcome (main env args) = Err ZeroDivisionError
  ∧ exit_status (outcome (main env args)) = 1%Z.
Proof.
  intros Hlevel Hlog Hv Hparse.
  destruct (main_empty_input env args Hlevel Hlog Hv Hparse) as [Hconv Hmain].
  by rewrite Hconv, Hmain.
Qed.

Lemma C9_empty_input_raises_witness :
  outcome (main (Scenario.env []) Scenario.args) = Err ZeroDivisionError.
Proof.
  refine (proj1 (proj2 (C9_empty_input_raises (Scenario.env []) Scenario.args
                          _ _ _ _)));
    try (vm_compute; reflexivity).
  right. left.
Defined.

(** * Further properties of the script *)

(** ** [str.strip] on the lines read *)

Lemma lstrip_empty_iff c s : lstrip c s = EmptyString ↔ only c s = true.
Proof.
  induction s as [|a s IH]; simpl; [done|].
  destruct (Ascii.eqb a c); simpl; [done|]. split; done.
Qed.

Lemma rstrip_empty_iff c s : rstrip c s = EmptyString ↔ only c s = true.
Proof.
  induction s as [|a s IH]; simpl; [done|].
  destruct (rstrip c s) as [|b r].
  - destruct (Ascii.eqb a c); simpl; [|split; done].
    split; [intros _; by apply IH | done].
  - destruct (Ascii.eqb a c); simpl; [|split; done].
    split; [done|]. intros H. by apply IH in H.
Qed.

Lemma rstrip_snoc c s : rstrip c (s +:+ String c EmptyString) = rstrip c s.
Proof.
  induction s as [|a s IH]; simpl.
  - by rewrite Ascii.eqb_refl.
  - by rewrite IH.
Qed.

Lemma lstrip_snoc c s :
  lstrip c (s +:+ String c EmptyString) =
  if only c s then EmptyString else lstrip c s +:+ String c EmptyString.
Proof.
  induction s as [|a s IH]; simpl.
  - by rewrite Ascii.eqb_refl.
  - destruct (Ascii.eqb a c); simpl; [apply IH | done].
Qed.

Lemma only_lstrip c s : only c s = only c (lstrip c s).
Proof.
  induction s as [|a s IH]; simpl; [done|].
  destruct (Ascii.eqb a c) eqn:Ha; simpl; [done|]. by rewrite Ha.
Qed.

(** A string that does not begin with [c] keeps its first character. *)
Lemma rstrip_head c a s :
  Ascii.eqb a c = false → ∃ r, rstrip c (String a s) = String a r.
Proof.
  intros Ha. simpl. rewrite Ha. destruct (rstrip c s); eauto.
Qed.

Lemma lstrip_head c s a r : lstrip c s = String a r → Ascii.eqb a c = false.
Proof.
  induction s as [|b s IH]; simpl; [done|].
  destruct (Ascii.eqb b c) eqn:Hb; [done|]. by intros [= <- _].
Qed.

Lemma rstrip_rstrip c s : rstrip c (rstrip c s) = rstrip c s.
Proof.
  induction s as [|a s IH]; simpl; [done|].
  destruct (rstrip c s) as [|b r] eqn:Hr.
  - destruct (Ascii.eqb a c) eqn:Ha; simpl; [done|]. by rewrite Ha.
  - change (rstrip c (String a (String b r)))
      with (match rstrip c (String b r) with
            | EmptyString =>
                if Ascii.eqb a c then EmptyString else String a EmptyString
            | String _ _ as r0 => String a r0
            end).
    by rewrite IH.
Qed.

Lemma rstrip_last c s s' : rstrip c s ≠ s' +:+ String c EmptyString.
Proof.
  revert s'. induction s as [|a s IH]; intros s'; simpl.
  - by destruct s'.
  - destruct (rstrip c s) as [|b r] eqn:Hr.
    + destruct (Ascii.eqb a c) eqn:Ha; [by destruct s'|].
      destruct s' as [|b' s'']; simpl.
      * intros [= ->]. by rewrite Ascii.eqb_refl in Ha.
      * intros [= _ H]. by destruct s''.
    + destruct s' as [|b' s'']; simpl; [done|].
      intros [= _ H]. by apply (IH s'').
Qed.

Lemma strip_strip c s : strip c (strip c s) = strip c s.
Proof.
  unfold strip. destruct (lstrip c s) as [|a t] eqn:Ht; [done|].
  pose proof (lstrip_head _ _ _ _ Ht) as Ha.
  destruct (rstrip_head c a t Ha) as [r Hr]. rewrite Hr.
  assert (Hl : lstrip c (String a r) = String a r) by (simpl; by rewrite Ha).
  by rewrite Hl, <- Hr, rstrip_rstrip.
Qed.

Lemma strip_snoc c s : strip c (s +:+ String c EmptyString) = strip c s.
Proof.
  unfold strip. rewrite lstrip_snoc. destruct (only c s) eqn:Ho.
  - apply lstrip_empty_iff in Ho. by rewrite Ho.
  - apply rstrip_snoc.
Qed.

Lemma strip_empty_iff c s : strip c s = EmptyString ↔ only c s = true.
Proof.
  unfold strip. by rewrite rstrip_empty_iff, <- only_lstrip.
Qed.

Lemma strip_first c s s' : strip c s ≠ String c s'.
Proof.
  unfold strip. destruct (lstrip c s) as [|a t] eqn:Ht; [done|].
  pose proof (lstrip_head _ _ _ _ Ht) as Ha.
  destruct (rstrip_head c a t Ha) as [r ->]. intros [= -> _].
  by rewrite Ascii.eqb_refl in Ha.
Qed.

Lemma size_list_to_set_le (l : list string) :
  size (list_to_set l : gset string) ≤ length l.
Proof.
  induction l as [|x l IH].
  - change (size (∅ : gset string) ≤ 0). by rewrite size_empty.
  - rewrite list_to_set_cons, size_union_alt, size_singleton. simpl.
    assert (size (list_to_set l ∖ {[x]} : gset string) ≤ size (list_to_set l : gset string))
      by (apply subseteq_size; set_solver).
    lia.
Qed.

(** ** [_parse_input_file]: what the input set holds *)

(** X1: the set read from the lines has at most as many identifiers as there
    are lines, and each identifier is a line without its newline
    characters: it neither begins nor ends with a newline, and stripping it
    again changes nothing. *)
Theorem X1_input_set_stripped lines :
  size (input_set lines) ≤ length lines
  ∧ ∀ x, x ∈ input_set lines →
      (∃ line, line ∈ lines ∧ x = strip "010"%char line)
      ∧ strip "010"%char x = x
      ∧ (∀ rest, x ≠ String "010"%char rest)
      ∧ (∀ front, x ≠ front +:+ newline).
Proof.
  split.
  - unfold input_set. etrans; [apply size_list_to_set_le|].
    by rewrite length_fmap.
  - intros x [line [-> Hin]]%elem_of_list_to_set%list_elem_of_fmap.
    split; [by exists line|]. split; [apply strip_strip|]. split.
    + apply strip_first.
    + intros front. unfold strip. apply rstrip_last.
Qed.

Lemma X1_input_set_stripped_witness :
  (∃ line, line ∈ ["C001" +:+ newline; "C001"; newline +:+ "C999"] ∧
           "C999" = strip "010"%char line)
  ∧ size (input_set ["C001" +:+ newline; "C001"; newline +:+ "C999"]) ≤ 3.
Proof.
  destruct (X1_input_set_stripped ["C001" +:+ newline; "C001"; newline +:+ "C999"])
    as [Hsize H].
  destruct (H "C999") as [Hline _].
  - apply elem_of_list_to_set. vm_compute. do 2 right. left.
  - split; [exact Hline | exact Hsize].
Defined.

(** X2: a newline at the end of a line does not matter: a line gives the
    same identifier with or without it, so a last line that lacks its
    newline collapses with an earlier copy of the same identifier. *)
Theorem X2_input_set_final_newline front back line :
  input_set (front ++ (line +:+ newline) :: back) = input_set (front ++ line :: back).
Proof.
  unfold input_set. rewrite !fmap_app, !fmap_cons. unfold newline.
  by rewrite strip_snoc.
Qed.

(** X3: the empty identifier is in the input set exactly when some line
    holds nothing but newline characters (a blank line, or an empty last
    line). *)
Theorem X3_input_set_blank_line lines :
  EmptyString ∈ input_set lines ↔ ∃ line, line ∈ lines ∧ only "010"%char line = true.
Proof.
  unfold input_set. rewrite elem_of_list_to_set, list_elem_of_fmap. split.
  - intros (line & Hs & Hin). exists line. split; [done|].
    by apply strip_empty_iff.
  - intros (line & Hin & Ho). exists line. split; [|done].
    symmetry. by apply strip_empty_iff.
Qed.

(** ** [convert]: what a call that returns has done *)

(** X4: when [convert] returns, every input identifier is either a key of
    the mapping or a member of the unavailable set, never both, nothing else
    is, and the two sizes add up to the size of the input. *)
Theorem X4_convert_split env input database table id field founded_ids unavailable_ids :
  outcome (convert env input database table id field)
    = Ok (founded_ids, unavailable_ids) →
  dom founded_ids ∪ unavailable_ids = input
  ∧ dom founded_ids ## unavailable_ids
  ∧ size founded_ids + size unavailable_ids = size input.
Proof.
  intros [Hunion Hdisj]%convert_partition. split; [done|]. split; [done|].
  by rewrite <- Hunion, size_union, size_dom.
Qed.

Lemma X4_convert_split_witness :
  size ({[ "C001" := "HMDB0001" ]} : gmap string string)
    + size ({[ "UNKNOWN1" ]} : gset string)
  = size ({[ "C001"; "UNKNOWN1" ]} : gset string).
Proof.
  refine (proj2 (proj2 (X4_convert_split (Scenario.env []) {[ "C001"; "UNKNOWN1" ]}
                          "db" "mbroleplus" "HMDB" "database"
                          {[ "C001" := "HMDB0001" ]} {[ "UNKNOWN1" ]} _))).
  vm_compute. reflexivity.
Defined.

(** X5: when [convert] returns on a table given by a plain name and every
    input identifier is read as the string it spells, the unavailable
    identifiers are exactly the input identifiers that are the ID of no row
    of the table, and the keys of the mapping exactly those that are the ID
    of some row. *)
Theorem X5_convert_classification env input database table id field
    founded_ids unavailable_ids db t :
  outcome (convert env input database table id field)
    = Ok (founded_ids, unavailable_ids) →
  sqlite3_Connection env database = Some (Some db) →
  plain_name table = true →
  sql_table db table = Some t →
  (∀ x, x ∈ input → literal t x) →
  ∀ x,
    (x ∈ unavailable_ids ↔ x ∈ input ∧ ∀ r, r ∈ rows t → row_id r ≠ x)
    ∧ (x ∈ dom founded_ids ↔ x ∈ input ∧ ∃ r, r ∈ rows t ∧ row_id r = x).
Proof.
  intros (cursor & Hc & Hno & Hf & Hu)%convert_Ok Hc' _ Ht Hlit x.
  rewrite Hc in Hc'. injection Hc' as ->.
  assert (Hrow : x ∈ input →
            select_inchikey t x = [] ↔ ∀ r, r ∈ rows t → row_id r ≠ x).
  { intros Hin. pose proof (Hlit x Hin) as Hx. split.
    - intros Hk r Hr Hid.
      assert (Hk' : row_inchikey r ∈ select_inchikey t x)
        by (apply (elem_of_select_inchikey _ _ _ Hx); by exists r).
      rewrite Hk in Hk'. by apply elem_of_nil in Hk'.
    - intros Hnone. destruct (select_inchikey t x) as [|k ks] eqn:Hk; [done|].
      assert (Hk' : k ∈ select_inchikey t x) by (rewrite Hk; by left).
      apply (elem_of_select_inchikey _ _ _ Hx) in Hk' as (r & Hr & Hid & _).
      by destruct (Hnone r). }
  pose proof (resolve_on_table db t table id field x Ht) as Hres.
  split.
  - rewrite Hu. split; intros [Hin H]; (split; [done|]).
    + apply (Hrow Hin).
      by apply resolve_Unmatched in H as (db' & t' & [= <-] & Ht' & _ & Hk);
        rewrite Ht in Ht'; injection Ht' as <-.
    + rewrite Hres, (Hlit x Hin). by rewrite (proj2 (Hrow Hin) H).
  - rewrite elem_of_dom. split.
    + intros [y [Hin Hm]%Hf]. split; [done|].
      apply resolve_Matched in Hm
        as (db' & t' & tag & k & ks & ys & [= <-] & Ht' & _ & Hk & _).
      rewrite Ht in Ht'. injection Ht' as <-.
      assert (Hk' : k ∈ select_inchikey t x) by (rewrite Hk; by left).
      apply (elem_of_select_inchikey _ _ _ (Hlit x Hin)) in Hk'
        as (r & Hr & Hid & _). by exists r.
    + intros [Hin (r & Hr & Hid)].
      destruct (resolve (Some db) table id field x) as [|y|e] eqn:Hx.
      * apply resolve_Unmatched in Hx as (db' & t' & [= <-] & Ht' & _ & Hk).
        rewrite Ht in Ht'. injection Ht' as <-.
        by destruct (proj1 (Hrow Hin) Hk r).
      * exists y. by apply Hf.
      * by destruct (Hno x e).
Qed.

Lemma X5_convert_classification_witness :
  "UNKNOWN1" ∈ ({[ "UNKNOWN1" ]} : gset string) ↔
  "UNKNOWN1" ∈ ({[ "C001"; "UNKNOWN1" ]} : gset string) ∧
  ∀ r, r ∈ rows Scenario.table → row_id r ≠ "UNKNOWN1".
Proof.
  refine (proj1 (X5_convert_classification (Scenario.env []) {[ "C001"; "UNKNOWN1" ]}
                   "db" "mbroleplus" "HMDB" "database"
                   {[ "C001" := "HMDB0001" ]} {[ "UNKNOWN1" ]}
                   Scenario.db Scenario.table _ eq_refl eq_refl eq_refl _ "UNKNOWN1")).
  - vm_compute. reflexivity.
  - intros x [->%elem_of_singleton| ->%elem_of_singleton]%elem_of_union;
      vm_compute; reflexivity.
Defined.

(** X6: the result for a union of two inputs is the union of the two
    results: when [convert] returns on each of two sets it returns on their
    union, with the two mappings and the two unavailable sets merged. *)
Theorem X6_convert_union env input1 input2 database table id field
    founded1 unavailable1 founded2 unavailable2 :
  outcome (convert env input1 database table id field) = Ok (founded1, unavailable1) →
  outcome (convert env input2 database table id field) = Ok (founded2, unavailable2) →
  outcome (convert env (input1 ∪ input2) database table id field)
    = Ok (founded1 ∪ founded2, unavailable1 ∪ unavailable2).
Proof.
  intros (cursor & Hc & Hno1 & Hf1 & Hu1)%convert_Ok
         (cursor' & Hc' & Hno2 & Hf2 & Hu2)%convert_Ok.
  rewrite Hc in Hc'. injection Hc' as <-.
  destruct (outcome (convert env (input1 ∪ input2) database table id field))
    as [[f u]|e] eqn:Hrun.
  - apply convert_Ok in Hrun as (cursor' & Hc' & _ & Hf & Hu).
    rewrite Hc in Hc'. injection Hc' as <-. f_equal. f_equal.
    + apply map_eq. intros x. apply option_eq. intros y.
      rewrite Hf, lookup_union_Some_raw, Hf1, Hf2, elem_of_union.
      split.
      * intros [[H1|H2] Hm]; [by left|].
        destruct (founded1 !! x) as [y'|] eqn:Hx; [|by right].
        apply Hf1 in Hx as [Hin Hm']. left. split; [done|congruence].
      * intros [[Hin Hm]|[_ [Hin Hm]]]; (split; [by auto|done]).
    + apply set_eq. intros x. rewrite Hu, !elem_of_union, Hu1, Hu2. tauto.
  - unfold convert in Hrun. rewrite convert_iter_outcome, Hc in Hrun.
    apply resolve_all_Err in Hrun as (x & Hin & Hx).
    apply elem_of_elements, elem_of_union in Hin as [Hin|Hin].
    + by destruct (Hno1 x e).
    + by destruct (Hno2 x e).
Qed.

Lemma X6_convert_union_witness :
  outcome (convert (Scenario.env []) ({[ "C001" ]} ∪ {[ "UNKNOWN1" ]})
             "db" "mbroleplus" "HMDB" "database")
  = Ok ({[ "C001" := "HMDB0001" ]} ∪ ∅, ∅ ∪ {[ "UNKNOWN1" ]}).
Proof.
  apply X6_convert_union; vm_compute; reflexivity.
Defined.

(** X7: when the table name is one bare name and the database has no table
    of that name (up to case), [convert] raises [OperationalError] as soon as
    there is an identifier to look up (none holding a NUL character, which
    the driver refuses before SQLite looks for the table); with an empty
    input it executes no statement and returns two empty results. *)
Theorem X7_convert_missing_table env input database table id field db :
  sqlite3_Connection env database = Some (Some db) →
  bare_name table = true →
  sql_table db table = None →
  (∀ x, x ∈ input → has_char "000"%char x = false) →
  outcome (convert env input database table id field) =
    (if decide (input = ∅) then Ok (∅, ∅) else Err OperationalError)
  ∧ (input = ∅ →
     statements (trace (convert env input database table id field)) = []).
Proof.
  intros Hc _ Ht _. split.
  - unfold convert. rewrite convert_iter_outcome, Hc.
    destruct (decide (input = ∅)) as [->|Hne].
    + by rewrite elements_empty.
    + destruct (elements input) as [|x xs] eqn:Hel.
      * by apply elements_empty_iff, leibniz_equiv in Hel.
      * simpl. unfold resolve. simpl. by rewrite Ht.
  - intros ->. unfold convert, convert_iter, connect, emit.
    rewrite Hc, elements_empty. reflexivity.
Qed.

Lemma X7_convert_missing_table_witness :
  outcome (convert (Scenario.env []) {[ "C001" ]} "db" "compounds" "HMDB" "database")
  = Err OperationalError.
Proof.
  refine (proj1 (X7_convert_missing_table (Scenario.env []) {[ "C001" ]}
                   "db" "compounds" "HMDB" "database" Scenario.db
                   eq_refl eq_refl eq_refl _)).
  by intros x ->%elem_of_singleton.
Defined.

(** X8: after a positive verdict of [validation] on a table and a lookup
    column given by plain names, when the target tag, the InChIKeys of the
    table and the input identifiers are texts that are read between double
    quotes, [convert] either returns or raises [IndexError],
    and it raises exactly when for some input identifier the first statement
    selects a row whose InChIKey (the first one) gives no row at the second
    statement. *)
Theorem X8_validated_convert env id database table input_file output_file
    logfile field input db t :
  outcome (validation env id database table input_file output_file logfile field)
    = Ok true →
  sqlite3_Connection env database = Some (Some db) →
  plain_name table = true →
  plain_name field = true →
  db !! table = Some t →
  readable t id →
  (∀ r, r ∈ rows t → readable t (row_inchikey r)) →
  (∀ x, x ∈ input → readable t x) →
  ∃ tag,
    column t field = Some tag ∧
    (outcome (convert env input database table id field) = Err IndexError ↔
       ∃ X inchikey ks,
         X ∈ input ∧ select_inchikey t X = inchikey :: ks ∧
         select_id t tag inchikey id = [])
    ∧ (outcome (convert env input database table id field) ≠ Err IndexError →
       ∃ founded_ids unavailable_ids,
         outcome (convert env input database table id field)
           = Ok (founded_ids, unavailable_ids)).
Proof.
  intros (db' & t' & tag & _ & Hc' & Ht' & Htag & _)%validation_true_inv
    Hc _ _ Ht Hid Hkeys Hinput.
  rewrite Hc in Hc'. injection Hc' as <-. rewrite Ht in Ht'. injection Ht' as <-.
  exists tag. split; [done|].
  pose proof (sql_table_exact _ _ _ Ht) as Hst.
  pose proof (sql_column_exact _ _ _ Htag) as Hsc.
  assert (Hraise : ∀ e,
            outcome (convert env input database table id field) = Err e →
            e = IndexError ∧
            ∃ X inchikey ks,
              X ∈ input ∧ select_inchikey t X = inchikey :: ks ∧
              select_id t tag inchikey id = []).
  { intros e Hrun. unfold convert in Hrun.
    rewrite convert_iter_outcome, Hc in Hrun.
    apply resolve_all_Err in Hrun as (x & Hin%elem_of_elements & Hx).
    destruct (resolve_Raised_read _ _ _ _ _ _ _ _ Hst Hsc Hid Hkeys (Hinput x Hin) Hx)
      as (-> & k & ks & Hk & Hy).
    split; [done|]. by exists x, k, ks. }
  split; [split|].
  - intros Hrun. by destruct (Hraise _ Hrun).
  - intros (X & k & ks & Hin & Hk & Hy).
    destruct (hop2_miss_raises _ _ _ _ _ _ _ _ _ _ _ _ Hc Hst Hsc Hin Hk Hy)
      as [e He].
    destruct (Hraise _ He) as [-> _]. done.
  - intros Hno.
    destruct (outcome (convert env input database table id field))
      as [[f u]|e] eqn:Hrun; [by exists f, u|].
    destruct (Hraise e eq_refl) as [-> _]. done.
Qed.

Lemma X8_validated_convert_witness :
  ∃ tag,
    column Scenario.table "database" = Some tag ∧
    (outcome (convert (Scenario.env []) {[ "C999" ]} "db" "mbroleplus" "HMDB" "database")
       = Err IndexError ↔
       ∃ X inchikey ks,
         X ∈ ({[ "C999" ]} : gset string) ∧
         select_inchikey Scenario.table X = inchikey :: ks ∧
         select_id Scenario.table tag inchikey "HMDB" = [])
    ∧ (outcome (convert (Scenario.env []) {[ "C999" ]} "db" "mbroleplus" "HMDB" "database")
         ≠ Err IndexError →
       ∃ founded_ids unavailable_ids,
         outcome (convert (Scenario.env []) {[ "C999" ]} "db" "mbroleplus" "HMDB" "database")
           = Ok (founded_ids, unavailable_ids)).
Proof.
  apply (X8_validated_convert (Scenario.env []) "HMDB" "db" "mbroleplus"
           "in.txt" "out/ids.txt" "log" "database" {[ "C999" ]}
           Scenario.db Scenario.table).
  - vm_compute. reflexivity.
  - reflexivity.
  - vm_compute. reflexivity.
  - vm_compute. reflexivity.
  - reflexivity.
  - by eexists.
  - intros r Hr. unfold Scenario.table in Hr. simpl in Hr.
    repeat (apply elem_of_cons in Hr as [->|Hr]); try by eexists.
    by apply elem_of_nil in Hr.
  - intros x ->%elem_of_singleton. by eexists.
Defined.

(** ** [convert]: what a call that returns has asked and logged *)

Lemma convert_body_counts cursor table id field st st' x :
  outcome (convert_body cursor table id field st x) = Ok st' →
  length (statements (trace (convert_body cursor table id field st x)))
    = (if is_matched (resolve cursor table id field x) then 2 else 1)
  ∧ length (warnings (trace (convert_body cursor table id field st x)))
    = (if is_unmatched (resolve cursor table id field x) then 1 else 0).
Proof.
  destruct st as [f u]. unfold convert_body, resolve, execute, log, lift, emit.
  destruct (fetch cursor (SQL_GET_INCHIKEY table x)) as [[|k ks]|e];
    simpl; try done.
  destruct (fetch cursor (SQL_GET_ID_WITH_INCHIKEY table k field id))
    as [[|y ys]|e]; simpl; try done.
  by destruct (String.length y =? 0)%nat.
Qed.

Lemma for_each_counts cursor table id field st st' xs :
  outcome (for_each (convert_body cursor table id field) st xs) = Ok st' →
  length (statements (trace (for_each (convert_body cursor table id field) st xs)))
    = length xs
      + length (filter (λ x, is_matched (resolve cursor table id field x)) xs)
  ∧ length (warnings (trace (for_each (convert_body cursor table id field) st xs)))
    = length (filter (λ x, is_unmatched (resolve cursor table id field x)) xs).
Proof.
  revert st. induction xs as [|x xs IH]; intros st Hrun; [done|].
  cbn [for_each] in *. rewrite outcome_bind in Hrun. rewrite trace_bind.
  destruct (outcome (convert_body cursor table id field st x)) as [st0|] eqn:Hx;
    [|done].
  destruct (convert_body_counts _ _ _ _ _ _ _ Hx) as [Hs Hw].
  destruct (IH _ Hrun) as [IHs IHw].
  unfold statements, warnings in *.
  rewrite !omap_app, !length_app, Hs, Hw, IHs, IHw, !filter_cons.
  destruct (resolve cursor table id field x); simpl; split; lia.
Qed.

Lemma length_filter_size (P : string → Prop) `{∀ x, Decision (P x)}
    (xs : list string) (X : gset string) :
  NoDup xs → (∀ x, x ∈ X ↔ x ∈ xs ∧ P x) → length (filter P xs) = size X.
Proof.
  intros Hnd HX. unfold size, set_size. simpl. apply Permutation_length.
  apply NoDup_Permutation.
  - by apply NoDup_filter.
  - apply NoDup_elements.
  - intros x. rewrite list_elem_of_filter, elem_of_elements, HX. tauto.
Qed.

Lemma convert_iter_trace env order database table id field cursor :
  sqlite3_Connection env database = Some cursor →
  trace (convert_iter env order database table id field) =
    [ EvConnect database;
      EvLog "convert" INFO (" Querying " +:+ pretty (length order) +:+ " metabolites") ]
    ++ trace (for_each (convert_body cursor table id field) (∅, ∅) order).
Proof.
  intros Hc. unfold convert_iter, connect, log, emit. rewrite Hc. simpl.
  by destruct (for_each (convert_body cursor table id field) (∅, ∅) order).
Qed.

(** X9: a call of [convert] that returns has executed one statement per
    input identifier plus one per matched identifier, and has logged one
    warning per unavailable identifier. *)
Theorem X9_convert_statement_count env input database table id field
    founded_ids unavailable_ids :
  outcome (convert env input database table id field)
    = Ok (founded_ids, unavailable_ids) →
  length (statements (trace (convert env input database table id field)))
    = size input + size founded_ids
  ∧ length (warnings (trace (convert env input database table id field)))
    = size unavailable_ids.
Proof.
  intros Hrun.
  destruct (convert_Ok _ _ _ _ _ _ _ _ Hrun) as (cursor & Hc & _ & Hf & Hu).
  unfold convert in *.
  rewrite (convert_iter_trace _ _ _ _ _ _ _ Hc).
  rewrite convert_iter_outcome, Hc, <- for_each_outcome in Hrun.
  destruct (for_each_counts _ _ _ _ _ _ _ Hrun) as [Hs Hw].
  unfold statements, warnings in *. rewrite !omap_app, !length_app, Hs, Hw.
  split; simpl.
  - change (length (elements input)) with (size input). f_equal.
    rewrite <- (size_dom (D := gset string) founded_ids).
    apply length_filter_size; [apply NoDup_elements|].
    intros x. rewrite elem_of_dom, elem_of_elements. split.
    + intros [y Hy]. apply Hf in Hy as [Hin Hm]. split; [done|]. by rewrite Hm.
    + intros [Hin Hm].
      destruct (resolve cursor table id field x) as [|y|] eqn:Hx; try done.
      exists y. by apply Hf.
  - apply length_filter_size; [apply NoDup_elements|].
    intros x. rewrite elem_of_elements, Hu. split.
    + intros [Hin Hx]. split; [done|]. by rewrite Hx.
    + intros [Hin Hx]. split; [done|].
      by destruct (resolve cursor table id field x).
Qed.

Lemma X9_convert_statement_count_witness :
  length (statements (trace (convert (Scenario.env []) {[ "C001"; "UNKNOWN1" ]}
                               "db" "mbroleplus" "HMDB" "database")))
    = size ({[ "C001"; "UNKNOWN1" ]} : gset string)
      + size ({[ "C001" := "HMDB0001" ]} : gmap string string)
  ∧ length (warnings (trace (convert (Scenario.env []) {[ "C001"; "UNKNOWN1" ]}
                               "db" "mbroleplus" "HMDB" "database")))
    = size ({[ "UNKNOWN1" ]} : gset string).
Proof.
  apply X9_convert_statement_count. vm_compute. reflexivity.
Defined.

(** ** [validation]: what a verdict means *)


(** ** [save_compounds] and what [main] writes *)

Lemma prints_app tr1 tr2 : prints (tr1 ++ tr2) = prints tr1 ++ prints tr2.
Proof. apply omap_app. Qed.

Lemma for_each_emit_trace {A} (ev : A → Event) (xs : list A) :
  trace (for_each (λ _ x, emit (ev x)) tt xs) = ev <$> xs.
Proof.
  induction xs as [|x xs IH]; [done|].
  cbn [for_each]. rewrite trace_bind. simpl. by rewrite IH.
Qed.

Lemma save_compounds_prints env file gzipped compounds :
  prints (trace (save_compounds env file gzipped compounds)) =
    if open_file env gzipped file "wt"
    then (λ x, (file, x +:+ newline)) <$> elements compounds
    else [].
Proof.
  unfold save_compounds, open_. rewrite trace_bind.
  destruct (open_file env gzipped file "wt"); [|done].
  cbn [outcome snd bind emit ret]. rewrite for_each_emit_trace, prints_app.
  cbn [trace fst app]. unfold prints at 1. cbn [omap list_omap app].
  induction (elements compounds) as [|x xs IH]; [done|].
  rewrite !fmap_cons. unfold prints in *. cbn [omap list_omap]. by rewrite IH.
Qed.

Lemma strip_without c x : has_char c x = false → strip c x = x.
Proof.
  intros Hx. unfold strip.
  assert (Hl : lstrip c x = x).
  { destruct x as [|a s]; [done|]. simpl in *.
    by destruct (Ascii.eqb a c). }
  rewrite Hl. clear Hl. induction x as [|a s IH]; [done|].
  simpl in *. destruct (Ascii.eqb a c) eqn:Ha; [done|]. simpl in Hx.
  rewrite (IH Hx). by destruct s.
Qed.

(** X11: a set saved uncompressed by [save_compounds] and read back by
    [_parse_input_file] is the same set, provided no member holds a newline
    or a carriage return (each printed text is then one line of the file). *)
Theorem X11_save_then_parse env env' file compounds :
  open_file env false file "wt" = true →
  (∀ x, x ∈ compounds →
        has_char "010"%char x = false ∧ has_char "013"%char x = false) →
  open_file env' false file "r" = true →
  file_readlines env' false file
    = Some (snd <$> prints (trace (save_compounds env file false compounds))) →
  outcome (_parse_input_file env' file false) = Ok compounds.
Proof.
  intros Hw Hplain Hr Hlines.
  assert (Hfix : ∀ x, x ∈ compounds → strip "010"%char x = x).
  { intros x [Hx _]%Hplain. by apply strip_without. }
  rewrite (parse_input_file_outcome _ _ _ _ Hr Hlines). f_equal.
  rewrite save_compounds_prints, Hw. apply set_eq. intros x.
  unfold input_set. rewrite elem_of_list_to_set, <- !list_fmap_compose.
  rewrite list_elem_of_fmap. split.
  - intros (y & -> & Hy%elem_of_elements). simpl. unfold newline.
    by rewrite strip_snoc, Hfix.
  - intros Hx. exists x. split; [|by apply elem_of_elements].
    simpl. unfold newline. by rewrite strip_snoc, Hfix.
Qed.

Lemma X11_save_then_parse_witness :
  outcome (_parse_input_file (Scenario.env ["UNKNOWN1" +:+ newline]) "discarded.txt" false)
  = Ok {[ "UNKNOWN1" ]}.
Proof.
  apply (X11_save_then_parse (Scenario.env []) (Scenario.env ["UNKNOWN1" +:+ newline])
           "discarded.txt" {[ "UNKNOWN1" ]}).
  - reflexivity.
  - intros x ->%elem_of_singleton. split; reflexivity.
  - reflexivity.
  - vm_compute. reflexivity.
Defined.

Lemma validation_prints env id database table input_file output_file logfile field :
  prints (trace (validation env id database table input_file output_file logfile field))
    = [].
Proof.
  unfold validation, exists_, connect, execute, log, lift, emit.
  destruct (os_path_exists env database); simpl; [|done].
  destruct (sqlite3_Connection env database) as [cursor|]; simpl; [|done].
  destruct (fetch cursor SQL_TABLE_EXISTS) as [tables|]; simpl; [|done].
  destruct (bool_decide (table ∈ tables)); simpl; [|done].
  destruct (fetch cursor (SQLITE_COLUMNS_OF_TABLE table)) as [cols|]; simpl; [|done].
  destruct (bool_decide (field ∈ cols)); simpl; [|done].
  destruct (fetch cursor (SQL_SELECT_SOURCES field table)) as [sources|]; simpl;
    [|done].
  destruct (bool_decide (id ∈ sources)); simpl; [|done].
  by destruct (os_path_exists env input_file),
    (os_path_exists env (os_path_dirname env output_file)).
Qed.

Lemma parse_input_file_prints env file gz :
  prints (trace (_parse_input_file env file gz)) = [].
Proof.
  unfold _parse_input_file, open_, readlines, log, emit.
  destruct (open_file env gz file (if gz then "rb" else "r")); simpl; [|done].
  destruct (file_readlines env gz file) as [lines|]; simpl; [|done].
  destruct gz; [by destruct lines | done].
Qed.

Lemma convert_body_prints cursor table id field st x :
  prints (trace (convert_body cursor table id field st x)) = [].
Proof.
  destruct st as [f u]. unfold convert_body, execute, log, lift, emit.
  destruct (fetch cursor (SQL_GET_INCHIKEY table x)) as [[|k ks]|e];
    simpl; try done.
  destruct (fetch cursor (SQL_GET_ID_WITH_INCHIKEY table k field id))
    as [[|y ys]|e]; simpl; try done.
  by destruct (String.length y =? 0)%nat.
Qed.

Lemma convert_prints env input database table id field :
  prints (trace (convert env input database table id field)) = [].
Proof.
  unfold convert.
  destruct (sqlite3_Connection env database) as [cursor|] eqn:Hc.
  2: { unfold convert_iter, connect, emit. by rewrite Hc. }
  rewrite (convert_iter_trace _ _ _ _ _ _ _ Hc), prints_app.
  change (prints [EvConnect database; EvLog "convert" INFO _]) with (@nil (string * string)).
  cbn [app].
  generalize (∅ : gmap string string, ∅ : gset string).
  induction (elements input) as [|x xs IH]; intros st; [done|].
  cbn [for_each]. rewrite trace_bind.
  destruct (outcome (convert_body cursor table id field st x)).
  - by rewrite prints_app, convert_body_prints, IH.
  - apply convert_body_prints.
Qed.

(** One step of a run of [main] that is known to return. *)
Ltac step a E :=
  rewrite trace_bind;
  lazymatch goal with
  | H : outcome (bind ?m _) = Ok _ |- _ =>
      rewrite (outcome_bind m) in H; revert H;
      destruct (outcome m) as [a|] eqn:E; intros H; cbv beta iota in H |- *;
      [|discriminate H]
  end.

(** One step of a run of [main] whose outcome [H] is known. *)
Ltac run_with H := rewrite outcome_bind, ?trace_bind, H; cbv beta iota.

(** X12: a run of [main] that returns has printed, to the output file, every
    target identifier of the mapping once (each on a line of its own) and
    then, to the discarded file, every unavailable identifier once; it has
    printed nothing else. *)
Theorem X12_main_output env args :
  outcome (main env args) = Ok tt →
  ∃ input founded_ids unavailable_ids targets rejected,
    outcome (_parse_input_file env (args_input args) (args_gzipped_input args))
      = Ok input ∧
    outcome (convert env input (args_database args) (args_table args)
               (args_id args) (args_field args))
      = Ok (founded_ids, unavailable_ids) ∧
    prints (trace (main env args)) =
      ((λ y, (args_output args, y +:+ newline)) <$> targets)
      ++ ((λ x, (args_discarded_file args, x +:+ newline)) <$> rejected) ∧
    NoDup targets ∧ (∀ y, y ∈ targets ↔ ∃ x, founded_ids !! x = Some y) ∧
    NoDup rejected ∧ (∀ x, x ∈ rejected ↔ x ∈ unavailable_ids).
Proof.
  intros H. unfold main in *.
  step args' Eargs.
  assert (Hargs : _parse_args args = ([], Ok args) ∧ args' = args).
  { unfold _parse_args in *.
    destruct (bool_decide (args_loglevel args
                             ∈ ["debug"; "info"; "warn"; "error"; "critical"]));
      [by injection Eargs as <- | done]. }
  destruct Hargs as [Hargs ->]. rewrite Hargs. cbn [trace fst app].
  step level Elevel. step cfg Ecfg. step valid Evalid.
  destruct valid; cbn [negb] in H |- *; [|discriminate H].
  step input Eparse. step res Econv. destruct res as [f u].
  step found_ratio Ediv1. step l1 Elog1. step missing_ratio Ediv2.
  step l2 Elog2. step s1 Esave1.
  exists input, f, u,
    (elements (list_to_set (snd <$> map_to_list f) : gset string)), (elements u).
  split; [done|]. split; [done|]. split; [|split; [|split; [|split]]].
  - destruct (parse_loglevel_cases (args_loglevel args))
      as [(level' & _ & ->)|[He _]]; [|congruence].
    destruct (basicConfig_cases env (args_logfile args) level) as [-> _].
    rewrite !prints_app, validation_prints, parse_input_file_prints, convert_prints.
    rewrite save_compounds_outcome in Esave1, H.
    rewrite !save_compounds_prints.
    destruct (open_file env (args_gzipped_output args) (args_output args) "wt");
      [|done].
    destruct (open_file env false (args_discarded_file args) "wt"); [|done].
    unfold div_str. by destruct (size input =? 0)%nat.
  - apply NoDup_elements.
  - intros y. rewrite elem_of_elements, elem_of_list_to_set, list_elem_of_fmap.
    split.
    + intros ([x y'] & -> & Hxy%elem_of_map_to_list). by exists x.
    + intros [x Hx]. exists (x, y). split; [done|]. by apply elem_of_map_to_list.
  - apply NoDup_elements.
  - intros x. apply elem_of_elements.
Qed.

Lemma X12_main_output_witness :
  ∃ input founded_ids unavailable_ids targets rejected,
    outcome (_parse_input_file
               (Scenario.env ["C001" +:+ newline; "UNKNOWN1" +:+ newline])
               "in.txt" false) = Ok input ∧
    outcome (convert (Scenario.env ["C001" +:+ newline; "UNKNOWN1" +:+ newline])
               input "db" "mbroleplus" "HMDB" "database")
      = Ok (founded_ids, unavailable_ids) ∧
    prints (trace (main (Scenario.env ["C001" +:+ newline; "UNKNOWN1" +:+ newline])
                     Scenario.args)) =
      ((λ y, ("out/ids.txt", y +:+ newline)) <$> targets)
      ++ ((λ x, ("discarded.txt", x +:+ newline)) <$> rejected) ∧
    NoDup targets ∧ (∀ y, y ∈ targets ↔ ∃ x, founded_ids !! x = Some y) ∧
    NoDup rejected ∧ (∀ x, x ∈ rejected ↔ x ∈ unavailable_ids).
Proof.
  apply (X12_main_output
           (Scenario.env ["C001" +:+ newline; "UNKNOWN1" +:+ newline]) Scenario.args).
  vm_compute. reflexivity.
Defined.

(** ** [main]: runs that do not return *)



(** X14: [validation] does not stop a run whose input file cannot be opened:
    after a positive verdict [main] raises [OSError] at the [open] of
    [_parse_input_file] and ends with status 1, before any resolution. *)
Theorem X14_unreadable_input env args :
  args_loglevel args ∈ ["debug"; "info"; "warn"; "error"; "critical"] →
  open_file env false (args_logfile args) "a" = true →
  outcome (validation env (args_id args) (args_database args) (args_table args)
             (args_input args) (args_output args) (args_logfile args)
             (args_field args)) = Ok true →
  open_file env (args_gzipped_input args) (args_input args)
    (if args_gzipped_input args then "rb" else "r") = false →
  outcome (main env args) = Err OSError
  ∧ exit_status (outcome (main env args)) = 1%Z
  ∧ Forall (λ ev, is_resolution ev = false) (trace (main env args)).
Proof.
  intros Hin Hlog Hv Hopen.
  destruct (parse_loglevel_choice _ Hin) as [level Hlevel].
  assert (Hltr : trace (_parse_loglevel (args_loglevel args)) = []).
  { destruct (parse_loglevel_cases (args_loglevel args))
      as [(level' & _ & ->)|[He _]]; [done|congruence]. }
  destruct (basicConfig_cases env (args_logfile args) level) as [Hctr Hcfg].
  rewrite Hlog in Hcfg.
  assert (Hparse : _parse_input_file env (args_input args) (args_gzipped_input args)
                   = ([EvOpen (args_input args)
                         (if args_gzipped_input args then "rb" else "r")],
                      Err OSError)).
  { unfold _parse_input_file, open_, emit. by rewrite Hopen. }
  assert (Hmain : outcome (main env args) = Err OSError).
  { enter_main Hin. run_with Hlevel. run_with Hcfg. run_with Hv. cbn [negb].
    rewrite outcome_bind, Hparse. done. }
  split; [done|]. split; [by rewrite Hmain|].
  enter_main Hin.
  rewrite trace_bind, Hlevel, Hltr. cbv beta iota.
  rewrite trace_bind, Hcfg, Hctr. cbv beta iota.
  rewrite trace_bind, Hv. cbv beta iota. cbn [negb].
  rewrite trace_bind, Hparse. cbn [outcome trace fst snd app].
  constructor; [done|]. apply Forall_app. split.
  - apply validation_no_resolution.
  - by repeat constructor.
Qed.

Lemma X14_unreadable_input_witness :
  outcome (main Scenario.no_files Scenario.args) = Err OSError
  ∧ os_path_exists Scenario.no_files "in.txt" = false.
Proof.
  split; [|reflexivity].
  refine (proj1 (X14_unreadable_input Scenario.no_files Scenario.args _ _ _ _)).
  - right. left.
  - reflexivity.
  - vm_compute. reflexivity.
  - reflexivity.
Defined.

(** X15: a log level outside the five choices never reaches
    [_parse_loglevel]: [_parse_args] refuses it and [main] ends there with
    status 2, before anything is configured, probed or opened; for a level
    among the choices [_parse_loglevel] returns without printing, so its
    [sys.exit(-1)] is never taken from [main]. *)
Theorem X15_loglevel_choices env args :
  (args_loglevel args ∉ ["debug"; "info"; "warn"; "error"; "critical"] →
   main env args =
     ([EvUsage "--loglevel/-ll" (args_loglevel args)], Err (SystemExit 2))
   ∧ exit_status (outcome (main env args)) = 2%Z)
  ∧ (args_loglevel args ∈ ["debug"; "info"; "warn"; "error"; "critical"] →
     ∃ level, _parse_loglevel (args_loglevel args) = ([], Ok level)).
Proof.
  split.
  - intros Hnot.
    assert (Hmain : main env args =
              ([EvUsage "--loglevel/-ll" (args_loglevel args)],
               Err (SystemExit 2))).
    { unfold main. by rewrite (parse_args_refused _ Hnot). }
    split; [done|]. by rewrite Hmain.
  - intros Hin. destruct (parse_loglevel_cases (args_loglevel args))
      as [(level & Hout & Htr)|[He _]].
    + exists level. rewrite <- Hout, <- Htr. by destruct (_parse_loglevel _).
    + destruct (parse_loglevel_choice _ Hin) as [level Hlevel]. congruence.
Qed.

Lemma X15_loglevel_choices_witness :
  exit_status (outcome (main (Scenario.env []) Runs.args_verbose)) = 2%Z
  ∧ ∃ level, _parse_loglevel "info" = ([], Ok level).
Proof.
  destruct (X15_loglevel_choices (Scenario.env []) Runs.args_verbose) as [H _].
  destruct (X15_loglevel_choices (Scenario.env []) Scenario.args) as [_ H'].
  split.
  - refine (proj2 (H _)).
    intros Hin. rewrite !elem_of_cons, elem_of_nil in Hin.
    destruct Hin as [Hx|[Hx|[Hx|[Hx|[Hx|[]]]]]]; discriminate Hx.
  - apply H'. right. left.
Defined.

(** X16: with the compressed-input flag set, a file that has at least one
    line cannot be parsed: the lines are read as bytes, [strip] of a [str]
    argument raises [TypeError] at the first one, and a validated run ends
    there with status 1. A compressed file without lines gives the empty
    set. *)
Theorem X16_gzipped_input env args lines :
  args_loglevel args ∈ ["debug"; "info"; "warn"; "error"; "critical"] →
  open_file env false (args_logfile args) "a" = true →
  outcome (validation env (args_id args) (args_database args) (args_table args)
             (args_input args) (args_output args) (args_logfile args)
             (args_field args)) = Ok true →
  args_gzipped_input args = true →
  open_file env true (args_input args) "rb" = true →
  file_readlines env true (args_input args) = Some lines →
  outcome (_parse_input_file env (args_input args) true) =
    (if decide (lines = []) then Ok ∅ else Err TypeError)
  ∧ (lines ≠ [] →
     outcome (main env args) = Err TypeError
     ∧ exit_status (outcome (main env args)) = 1%Z).
Proof.
  intros Hin Hlog Hv Hgz Hopen Hread.
  destruct (parse_loglevel_choice _ Hin) as [level Hlevel].
  assert (Hparse : outcome (_parse_input_file env (args_input args) true) =
                   if decide (lines = []) then Ok ∅ else Err TypeError).
  { rewrite (parse_input_file_outcome _ _ _ _ Hopen Hread). by destruct lines. }
  split; [done|]. intros Hne.
  destruct (basicConfig_cases env (args_logfile args) level) as [_ Hcfg].
  rewrite Hlog in Hcfg.
  assert (Hmain : outcome (main env args) = Err TypeError).
  { enter_main Hin. run_with Hlevel. run_with Hcfg. run_with Hv. cbn [negb].
    rewrite outcome_bind, Hgz, Hparse. by rewrite decide_False. }
  split; [done|]. by rewrite Hmain.
Qed.

Lemma X16_gzipped_input_witness :
  outcome (main (Scenario.env ["C001" +:+ newline]) Runs.args_gz) = Err TypeError.
Proof.
  destruct (X16_gzipped_input (Scenario.env ["C001" +:+ newline]) Runs.args_gz
              ["C001" +:+ newline]) as [_ H].
  - right. left.
  - reflexivity.
  - vm_compute. reflexivity.
  - reflexivity.
  - reflexivity.
  - reflexivity.
  - destruct H as [Hmain _]; [done | exact Hmain].
Defined.
